(** * The run context of act's job runner

    A shallow embedding of [pkg/runner/run_context.go] and the properties of
    it that the specification states.

    Conventions of the embedding:
    - a Go [string] is a sequence of bytes: Rocq's [string], one [ascii] per
      byte; [len(s)] is [String.length s];
    - a Go [int] is a [Z] (the values that occur here are far from the
      64-bit bounds);
    - a Go [map[string]T] is a [gmap string T]; where the code tells a nil map
      from an allocated one the field is an [option (gmap string T)];
    - a run-time panic (nil dereference, division by zero, failed type
      assertion) is the result [None] of a function into [option]. *)

From Stdlib Require Import ZArith Ascii String List Lia Bool DecimalString.
From stdpp Require Import gmap strings list fin_maps.

Local Open Scope string_scope.

(** ** Go's [strings], [unicode/utf8] and [regexp], as far as the file uses them *)

Module GoStrings.

Definition byteVal (c : ascii) : nat := nat_of_ascii c.

Definition inRange (lo hi : nat) (c : ascii) : bool :=
  (lo <=? byteVal c)%nat && (byteVal c <=? hi)%nat.

Definition isDigit (c : ascii) : bool := inRange 48 57 c.
Definition isUpper (c : ascii) : bool := inRange 65 90 c.
Definition isLower (c : ascii) : bool := inRange 97 122 c.

(** The character class [[a-zA-Z0-9]]. *)
Definition isAlnum (c : ascii) : bool := isLower c || isUpper c || isDigit c.

Definition isHyphen (c : ascii) : bool := Ascii.eqb c "-".

Fixpoint allChars (p : ascii -> bool) (s : string) : bool :=
  match s with
  | EmptyString => true
  | String c r => p c && allChars p r
  end.

Definition isEmpty (s : string) : bool :=
  match s with EmptyString => true | String _ _ => false end.

Fixpoint lastChar (s : string) : option ascii :=
  match s with
  | EmptyString => None
  | String c r => match lastChar r with Some d => Some d | None => Some c end
  end.

(** [s[:n]] for [0 <= n <= len(s)]. *)
Fixpoint take (n : nat) (s : string) : string :=
  match n, s with
  | S k, String c r => String c (take k r)
  | _, _ => EmptyString
  end.

(** [s[n:]] for [0 <= n <= len(s)]. *)
Fixpoint drop (n : nat) (s : string) : string :=
  match n, s with
  | S k, String _ r => drop k r
  | _, _ => s
  end.

(** [utf8.DecodeRuneInString]: the number of bytes of the rune that starts
    [s]. An ill-formed or truncated encoding is the error rune of width 1. *)
Definition runeWidth (s : string) : nat :=
  match s with
  | EmptyString => 0
  | String c0 r =>
      let n := byteVal c0 in
      if (n <? 128)%nat then 1
      else if (n <? 194)%nat then 1
      else if (n <? 224)%nat then
        match r with
        | String c1 _ => if inRange 128 191 c1 then 2 else 1
        | _ => 1
        end
      else if (n <? 240)%nat then
        let lo := if (n =? 224)%nat then 160 else 128 in
        let hi := if (n =? 237)%nat then 159 else 191 in
        match r with
        | String c1 (String c2 _) =>
            if inRange lo hi c1 && inRange 128 191 c2 then 3 else 1
        | _ => 1
        end
      else if (n <? 245)%nat then
        let lo := if (n =? 240)%nat then 144 else 128 in
        let hi := if (n =? 244)%nat then 143 else 191 in
        match r with
        | String c1 (String c2 (String c3 _)) =>
            if inRange lo hi c1 && inRange 128 191 c2 && inRange 128 191 c3
            then 4 else 1
        | _ => 1
        end
      else 1
  end.

(** [regexp.MustCompile("[^a-zA-Z0-9]").ReplaceAllString(s, "-")]: every
    rune that is not an ASCII letter or digit becomes one hyphen. [skip]
    counts the bytes still to drop of a rune that was already replaced. *)
Fixpoint replaceNonAlnumFrom (skip : nat) (s : string) : string :=
  match s with
  | EmptyString => EmptyString
  | String c r =>
      match skip with
      | S k => replaceNonAlnumFrom k r
      | O =>
          if isAlnum c then String c (replaceNonAlnumFrom 0 r)
          else String "-" (replaceNonAlnumFrom (runeWidth s - 1) r)
      end
  end.

Definition replaceNonAlnum (s : string) : string := replaceNonAlnumFrom 0 s.

(** The whole of [s] matches [-[0-9]+]. *)
Definition isDashDigits (s : string) : bool :=
  match s with
  | String c r => isHyphen c && negb (isEmpty r) && allChars isDigit r
  | EmptyString => false
  end.

(** [regexp.MustCompile("-[0-9]+$").FindStringSubmatch(s)]: the leftmost
    match, [None] for the nil slice. The pattern has no group, so the slice
    of a match has the one element [num[0]]. A hyphen is never a byte of a
    longer rune, so the search may advance byte by byte. *)
Fixpoint findDashDigitsSuffix (s : string) : option string :=
  match s with
  | EmptyString => None
  | String _ r => if isDashDigits s then Some s else findDashDigitsSuffix r
  end.

(** [strings.Join(elems, sep)]. *)
Fixpoint Join (elems : list string) (sep : string) : string :=
  match elems with
  | [] => EmptyString
  | [e] => e
  | e :: rest => e +:+ sep +:+ Join rest sep
  end.

Fixpoint inCutset (cutset : string) (c : ascii) : bool :=
  match cutset with
  | EmptyString => false
  | String d r => Ascii.eqb c d || inCutset r c
  end.

Fixpoint TrimLeft (s cutset : string) : string :=
  match s with
  | EmptyString => EmptyString
  | String c r => if inCutset cutset c then TrimLeft r cutset else s
  end.

Fixpoint TrimRight (s cutset : string) : string :=
  match s with
  | EmptyString => EmptyString
  | String c r =>
      let r' := TrimRight r cutset in
      if isEmpty r' && inCutset cutset c then EmptyString else String c r'
  end.

(** [strings.Trim(s, cutset)] for a cutset of ASCII characters. *)
Definition Trim (s cutset : string) : string :=
  TrimRight (TrimLeft s cutset) cutset.

(** [strings.Replace(s, old, new, n)] for a non-empty [old] (every call in
    the file passes a literal): the first [n] non-overlapping occurrences,
    all of them when [n < 0]. [skip] counts the bytes still to drop of an
    occurrence that was already replaced. *)
Fixpoint ReplaceFrom (old new : string) (skip : nat) (n : Z) (s : string)
  : string :=
  match s with
  | EmptyString => EmptyString
  | String c r =>
      match skip with
      | S k => ReplaceFrom old new k n r
      | O =>
          if (n =? 0)%Z then s
          else if String.prefix old s
               then new +:+ ReplaceFrom old new (String.length old - 1) (n - 1) r
               else String c (ReplaceFrom old new 0 n r)
      end
  end.

Definition Replace (s old new : string) (n : Z) : string :=
  ReplaceFrom old new 0 n s.

Definition ReplaceAll (s old new : string) : string := Replace s old new (-1).

(** [strings.Index(s, sep)], [None] for -1. *)
Fixpoint Index (s sep : string) : option nat :=
  if String.prefix sep s then Some 0%nat
  else match s with
       | EmptyString => None
       | String _ r => S <$> Index r sep
       end.

(** [strings.SplitN(s, sep, 2)] for a non-empty [sep]. *)
Definition SplitN2 (s sep : string) : list string :=
  match Index s sep with
  | None => [s]
  | Some i => [take i s; drop (i + String.length sep) s]
  end.

(** [strings.HasPrefix]. *)
Definition HasPrefix (s p : string) : bool := String.prefix p s.

(** [strings.Contains(s, substr)]. *)
Definition Contains (s substr : string) : bool :=
  match Index s substr with Some _ => true | None => false end.

Fixpoint revOnto (s acc : string) : string :=
  match s with
  | EmptyString => acc
  | String c r => revOnto r (String c acc)
  end.

Definition reverse (s : string) : string := revOnto s EmptyString.

(** The white space of [unicode.IsSpace], by its UTF-8 encoding: the width of
    the rune that starts [s] when that rune is white space, 0 otherwise.
    These are U+0009..U+000D, U+0020, U+0085, U+00A0, U+1680,
    U+2000..U+200A, U+2028, U+2029, U+202F, U+205F and U+3000. *)
Definition spaceWidth3 (n n1 n2 : nat) : nat :=
  if (n =? 225)%nat && (n1 =? 154)%nat && (n2 =? 128)%nat then 3
  else if (n =? 226)%nat && (n1 =? 128)%nat &&
          ((128 <=? n2)%nat && (n2 <=? 138)%nat
           || (n2 =? 168)%nat || (n2 =? 169)%nat || (n2 =? 175)%nat) then 3
  else if (n =? 226)%nat && (n1 =? 129)%nat && (n2 =? 159)%nat then 3
  else if (n =? 227)%nat && (n1 =? 128)%nat && (n2 =? 128)%nat then 3
  else 0.

Definition spaceWidth2 (n n1 : nat) : nat :=
  if (n =? 194)%nat && ((n1 =? 133)%nat || (n1 =? 160)%nat) then 2 else 0.

Definition spaceWidth1 (n : nat) : nat :=
  if (n =? 32)%nat || (9 <=? n)%nat && (n <=? 13)%nat then 1 else 0.

Definition leadingSpaceWidth (s : string) : nat :=
  match s with
  | EmptyString => 0
  | String c r =>
      match spaceWidth1 (byteVal c), r with
      | S w, _ => S w
      | O, String c1 r1 =>
          match spaceWidth2 (byteVal c) (byteVal c1), r1 with
          | S w, _ => S w
          | O, String c2 _ => spaceWidth3 (byteVal c) (byteVal c1) (byteVal c2)
          | O, EmptyString => 0
          end
      | O, EmptyString => 0
      end
  end.

(** The same for the rune that ends a string, read on the reversed string:
    the encodings above are complete runes, so a string ends with a white
    space rune exactly when it ends with one of them. *)
Definition trailingSpaceWidth (rev : string) : nat :=
  match rev with
  | EmptyString => 0
  | String c r =>
      match spaceWidth1 (byteVal c), r with
      | S w, _ => S w
      | O, String c1 r1 =>
          match spaceWidth2 (byteVal c1) (byteVal c), r1 with
          | S w, _ => S w
          | O, String c2 _ => spaceWidth3 (byteVal c2) (byteVal c1) (byteVal c)
          | O, EmptyString => 0
          end
      | O, EmptyString => 0
      end
  end.

Fixpoint dropRunsFrom (width : string -> nat) (skip : nat) (s : string) : string :=
  match s with
  | EmptyString => EmptyString
  | String _ r =>
      match skip with
      | S k => dropRunsFrom width k r
      | O =>
          match width s with
          | O => s
          | S w => dropRunsFrom width w r
          end
      end
  end.

(** [strings.TrimSpace(s)]. *)
Definition TrimSpace (s : string) : string :=
  reverse (dropRunsFrom trailingSpaceWidth 0
             (reverse (dropRunsFrom leadingSpaceWidth 0 s))).

(** *** Plain descriptions, used to state what the calls above compute *)

(** [s] with every two adjacent hyphens, read from the left, made one. *)
Fixpoint halveHyphenPairs (s : string) : string :=
  match s with
  | EmptyString => EmptyString
  | String c r =>
      match r with
      | String d r' =>
          if isHyphen c && isHyphen d
          then String "-" (halveHyphenPairs r')
          else String c (halveHyphenPairs r)
      | EmptyString => s
      end
  end.

(** [s] without its first hyphen. *)
Fixpoint dropFirstHyphen (s : string) : string :=
  match s with
  | EmptyString => EmptyString
  | String c r => if isHyphen c then r else String c (dropFirstHyphen r)
  end.

(** [s] up to its first dot. *)
Fixpoint upToFirstDot (s : string) : string :=
  match s with
  | EmptyString => EmptyString
  | String c r => if Ascii.eqb c "." then EmptyString else String c (upToFirstDot r)
  end.

End GoStrings.

Import GoStrings.

(** ** The data model *)

(** A Go [error] value is an [option error]: [None] is nil. *)
Definition error : Type := string.

(** A value of type [interface{}] as [encoding/json] produces it. [JNull] is
    the nil interface; a number is kept as its text. *)
#[local] Unset Elimination Schemes.
Inductive jsonValue : Type :=
| JNull
| JBool (b : bool)
| JNumber (repr : string)
| JString (s : string)
| JArray (l : list jsonValue)
| JObject (m : gmap string jsonValue).
#[local] Set Elimination Schemes.

(** What a read finds in a map that may be nil: a nil map reads as the empty
    map. *)
Definition readMap {V : Type} (m : option (gmap string V)) : gmap string V :=
  default ∅ m.

(** [m[k]] on a [map[string]string]: the empty string for a missing key. *)
Definition mapGet (m : gmap string string) (k : string) : string :=
  default "" (m !! k).

(** [Config] is declared in [runner.go]; these are the fields that
    [run_context.go] reads or writes. Every [RunContext] of an engine holds a
    pointer to the one [Config]: the functions below take the pointee as an
    argument and, when they write to it, return the new pointee. *)
Module Config.
Record t := mk {
  Workdir : string;
  BindWorkdir : bool;
  EventName : string;
  Actor : string;
  DefaultBranch : string;
  ReuseContainers : bool;
  ForcePull : bool;
  ForceRemoteCheckout : bool;
  LogOutput : bool;
  UseGitIgnore : bool;
  Privileged : bool;
  UsernsMode : string;
  ContainerArchitecture : string;
  ContainerDaemonSocket : string;
  GitHubInstance : string;
  Env : gmap string string;
  Secrets : gmap string string;
  Platforms : gmap string string
}.

(** [cfg.ContainerDaemonSocket = v]. *)
Definition setContainerDaemonSocket (v : string) (c : t) : t :=
  mk (Workdir c) (BindWorkdir c) (EventName c) (Actor c) (DefaultBranch c)
     (ReuseContainers c) (ForcePull c) (ForceRemoteCheckout c) (LogOutput c)
     (UseGitIgnore c) (Privileged c) (UsernsMode c) (ContainerArchitecture c)
     v (GitHubInstance c) (Env c) (Secrets c) (Platforms c).
End Config.

(** [stepResult]: [Outputs = None] is the nil map. The map of a run context
    holds pointers to step results; each pointer is made for its entry and
    kept nowhere else in this file, so the entry holds the value. *)
Module stepResult.
Record t := mk {
  Success : bool;
  Outputs : option (gmap string string)
}.

Definition setSuccess (b : bool) (r : t) : t := mk b (Outputs r).
End stepResult.

(** The interface [ExpressionEvaluator] (declared in [expression.go]). *)
Module ExpressionEvaluator.
Record t := mk {
  Evaluate : string -> string * bool * option error;
  Interpolate : string -> string;
  InterpolateWithStringCheck : string -> string * bool
}.
End ExpressionEvaluator.

(** [container.Container]: the handle of a container of the backend, or the
    host executor that runs a job on the host. *)
Inductive Container : Type :=
| BackendContainer (name : string)
| HostExecutor (path : string).

(** The type assertion of [c] to a pointer to [container.HostExecutor]. *)
Definition isHostExecutor (c : Container) : bool :=
  match c with HostExecutor _ => true | BackendContainer _ => false end.

(** What this file reads of [model.Job], [model.Step] and [model.Run]. *)
Module Job.
Record t := mk {
  Name : string;
  If : string;
  RunsOn : option (list string);
  Environment : gmap string string
}.
End Job.

Module Step.
Record t := mk {
  ID : string;
  If : string;
  ContinueOnError : bool
}.
End Step.

Module Run.
Record t := mk {
  WorkflowName : string;
  WorkflowEnv : gmap string string;
  Job : Job.t
}.
End Run.

(** [RunContext], without the pointer [Config] (see [Config.t]) and without
    [Matrix], [OutputMappings], [Composite], [Inputs] and [Parent], which no
    function below reads. A nil map or nil interface is [None]. *)
Module RunContext.
Record t := mk {
  GithubContextBase : option string;
  Name : string;
  Run : Run.t;
  EventJSON : string;
  Env : option (gmap string string);
  ExtraPath : list string;
  CurrentStep : string;
  StepResults : option (gmap string stepResult.t);
  ExprEval : option ExpressionEvaluator.t;
  JobContainer : option Container;
  JobName : string;
  actPath : string;
  Local : bool;
  ActionPath : string;
  ActionRef : string;
  ActionRepository : string
}.

Definition setEnv (v : option (gmap string string)) (rc : t) : t :=
  mk (GithubContextBase rc) (Name rc) (Run rc) (EventJSON rc) v (ExtraPath rc)
     (CurrentStep rc) (StepResults rc) (ExprEval rc) (JobContainer rc)
     (JobName rc) (actPath rc) (Local rc) (ActionPath rc) (ActionRef rc)
     (ActionRepository rc).

Definition setCurrentStep (v : string) (rc : t) : t :=
  mk (GithubContextBase rc) (Name rc) (Run rc) (EventJSON rc) (Env rc)
     (ExtraPath rc) v (StepResults rc) (ExprEval rc) (JobContainer rc)
     (JobName rc) (actPath rc) (Local rc) (ActionPath rc) (ActionRef rc)
     (ActionRepository rc).

Definition setStepResults (v : option (gmap string stepResult.t)) (rc : t) : t :=
  mk (GithubContextBase rc) (Name rc) (Run rc) (EventJSON rc) (Env rc)
     (ExtraPath rc) (CurrentStep rc) v (ExprEval rc) (JobContainer rc)
     (JobName rc) (actPath rc) (Local rc) (ActionPath rc) (ActionRef rc)
     (ActionRepository rc).

Definition setExprEval (v : option ExpressionEvaluator.t) (rc : t) : t :=
  mk (GithubContextBase rc) (Name rc) (Run rc) (EventJSON rc) (Env rc)
     (ExtraPath rc) (CurrentStep rc) (StepResults rc) v (JobContainer rc)
     (JobName rc) (actPath rc) (Local rc) (ActionPath rc) (ActionRef rc)
     (ActionRepository rc).
End RunContext.

(** [githubContext]. [Event = None] is the nil map, which [encoding/json]
    leaves for the JSON text [null]. *)
Module githubContext.
Record t := mk {
  Event : option (gmap string jsonValue);
  EventPath : string;
  Workflow : string;
  RunID : string;
  RunNumber : string;
  Actor : string;
  Repository : string;
  EventName : string;
  Sha : string;
  Ref : string;
  HeadRef : string;
  BaseRef : string;
  Token : string;
  Workspace : string;
  Action : string;
  ActionPath : string;
  ActionRef : string;
  ActionRepository : string;
  Job : string;
  JobName : string;
  RepositoryOwner : string;
  RetentionDays : string;
  RunnerPerflog : string;
  RunnerTrackingID : string
}.
End githubContext.

(** ** What the file takes from outside *)

(** The package-level patterns of [expression.go]: [MatchString] of
    [expressionPattern] and of [operatorPattern], and [FindAllString(_, -1)]
    of [splitPattern], which [EvalBool] compiles from the two. *)
Class Patterns := {
  expressionPattern : string -> bool;
  operatorPattern : string -> bool;
  splitPattern : string -> list string
}.

(** The host and the other files of the package: [encoding/json], the git
    lookups of [pkg/common], [rc.ContainerWorkdir()] and [runtime.GOOS]. A
    decoder returns its target as it left it together with its error. *)
Class Host := {
  unmarshalGithubContext : string -> githubContext.t -> githubContext.t * option error;
  unmarshalEvent : string -> option (gmap string jsonValue) ->
                   option (gmap string jsonValue) * option error;
  FindGithubRepo : string -> string -> string * option error;
  FindGitRevision : string -> string * string * option error;
  FindGitRef : string -> string * option error;
  ContainerWorkdir : Config.t -> RunContext.t -> string;
  GOOS : string
}.

(** The step engine of [step_context.go]: [sc.setupEnv(ctx)] and
    [sc.Executor()(ctx)] for the step context of a step. Both may change the
    run context. *)
Class StepEngine := {
  setupEnv : Step.t -> RunContext.t ->
             RunContext.t * option ExpressionEvaluator.t * option error;
  stepExecutor : Step.t -> RunContext.t -> RunContext.t * option error
}.

(** ** Step results, paths and the environment *)

Fixpoint initStepResultsLoop (keys : list string)
    (results : gmap string stepResult.t) : gmap string stepResult.t :=
  match keys with
  | [] => results
  | key :: rest =>
      initStepResultsLoop rest (<[key := stepResult.mk true None]> results)
  end.

(** [rc.InitStepResults(keys)]. *)
Definition InitStepResults (keys : list string) (rc : RunContext.t) : RunContext.t :=
  RunContext.setStepResults (Some (initStepResultsLoop keys ∅)) rc.

(** [rc.GetActPath()]. *)
Definition GetActPath (rc : RunContext.t) : string :=
  if (0 <? String.length (RunContext.actPath rc))%nat
  then RunContext.actPath rc
  else "/var/run/act".

(** [rc.String()] is [fmt.Sprintf("%s/%s", rc.Run.Workflow.Name, rc.Name)]. *)
Definition contextString (rc : RunContext.t) : string :=
  Run.WorkflowName (RunContext.Run rc) +:+ "/" +:+ RunContext.Name rc.

(** [mergeMaps(maps...)]. The order in which [range] visits the keys of one
    map does not matter: its keys are distinct. *)
Definition mergeMaps (maps : list (gmap string string)) : gmap string string :=
  foldl (fun rtnMap m => map_fold (fun k v acc => <[k := v]> acc) rtnMap m) ∅ maps.

(** [rc.GetEnv()]: the map it returns and the run context it leaves. The
    write of ["ACT"] goes to the map [rc.Env] refers to. *)
Definition GetEnv (cfg : Config.t) (rc : RunContext.t)
    : gmap string string * RunContext.t :=
  let env :=
    match RunContext.Env rc with
    | None =>
        mergeMaps [Config.Env cfg;
                   Run.WorkflowEnv (RunContext.Run rc);
                   Job.Environment (Run.Job (RunContext.Run rc))]
    | Some env => env
    end in
  let env := <["ACT" := "true"]> env in
  (env, RunContext.setEnv (Some env) rc).

(** ** Container names *)

(** [trimToLen(s, l)]. *)
Definition trimToLen (s : string) (l : Z) : string :=
  let l := if (l <? 0)%Z then 0%Z else l in
  if (Z.of_nat (String.length s) >? l)%Z then take (Z.to_nat l) s else s.

(** The body of the loop of [createContainerName] for the part at index [i]:
    the strings it appends to [name]. *)
Definition containerNamePart (partLen len i : Z) (part : string) : list string :=
  if (i =? len - 1)%Z then [replaceNonAlnum part]
  else
    match findDashDigitsSuffix part with
    | Some num0 =>
        [trimToLen (replaceNonAlnum part) (partLen - Z.of_nat (String.length num0));
         num0]
    | None => [trimToLen (replaceNonAlnum part) partLen]
    end.

Fixpoint containerNameLoop (partLen len i : Z) (parts : list string)
    (name : list string) : list string :=
  match parts with
  | [] => name
  | part :: rest =>
      containerNameLoop partLen len (i + 1) rest
        (name ++ containerNamePart partLen len i part)%list
  end.

(** [createContainerName(parts...)]. With no part the division
    [30 / len(parts)] panics. *)
Definition createContainerName (parts : list string) : option string :=
  let len := Z.of_nat (length parts) in
  if (len =? 0)%Z then None
  else
    let partLen := (Z.quot 30 len - 1)%Z in
    let name := containerNameLoop partLen len 0 parts [] in
    Some (ReplaceAll (Trim (Join name "-") "-") "--" "-").

(** [rc.jobContainerName()]. *)
Definition jobContainerName (rc : RunContext.t) : option string :=
  createContainerName ["act"; contextString rc].

(** The pattern [^[A-Za-z0-9]+(-[A-Za-z0-9]+)*$] of the specification, as the
    automaton that reads it: [afterAlnum] tells whether the character before
    was a letter or a digit. *)
Fixpoint matchesNameFrom (afterAlnum : bool) (s : string) : bool :=
  match s with
  | EmptyString => afterAlnum
  | String c r =>
      if isAlnum c then matchesNameFrom true r
      else if isHyphen c then afterAlnum && matchesNameFrom false r
      else false
  end.

Definition matchesNamePattern (s : string) : bool := matchesNameFrom false s.

(** ** Binds and mounts *)

(** [rc.GetBindsAndMounts()]: the binds, the mounts and the [Config] it
    leaves behind. *)
Definition GetBindsAndMounts `{Host} (cfg : Config.t) (rc : RunContext.t)
    : option (list string * gmap string string * Config.t) :=
  name ← jobContainerName rc;
  let cfg :=
    if String.eqb (Config.ContainerDaemonSocket cfg) ""
    then Config.setContainerDaemonSocket "/var/run/docker.sock" cfg
    else cfg in
  let binds :=
    [Config.ContainerDaemonSocket cfg +:+ ":" +:+ "/var/run/docker.sock"] in
  let mounts : gmap string string :=
    <[name +:+ "-env" := GetActPath rc]> (<["act-toolcache" := "/toolcache"]> ∅) in
  if Config.BindWorkdir cfg then
    let bindModifiers := if String.eqb GOOS "darwin" then ":delegated" else "" in
    Some ((binds ++ [Config.Workdir cfg +:+ ":" +:+ ContainerWorkdir cfg rc
                     +:+ bindModifiers])%list,
          mounts, cfg)
  else
    Some (binds, <[name := ContainerWorkdir cfg rc]> mounts, cfg).

(** ** Executors *)

Inductive Logger : Type :=
| StandardLogger
| BoundLogger (id : string).

(** Modelled from the spec: a cancellation-carrying context
    ([context.Context] with the logger binding of [pkg/common/logger.go],
    which is not among the sources): the logger bound to it, whether it is
    cancelled, and its other bindings. *)
Module Context.
Record t := mk {
  logger : option Logger;
  cancelled : bool;
  values : gmap string string
}.
End Context.

(** [context.Background()]. *)
Definition Background : Context.t := Context.mk None false ∅.

(** Modelled from the spec: [common.Logger(ctx)], the logger bound to [ctx]
    or else the standard one, and [common.WithLogger(ctx, logger)], of
    [pkg/common/logger.go]. *)
Definition LoggerOf (ctx : Context.t) : Logger :=
  default StandardLogger (Context.logger ctx).

Definition WithLogger (ctx : Context.t) (l : Logger) : Context.t :=
  Context.mk (Some l) (Context.cancelled ctx) (Context.values ctx).

(** The detached context of a teardown: it carries the logger of [ctx] and
    nothing else. *)
Definition detached (ctx : Context.t) : Context.t :=
  WithLogger Background (LoggerOf ctx).

(** A [common.Executor] that works on a state [S]: the state it leaves and
    the error it returns, or [None] when it panics. *)
Definition Executor (S : Type) : Type :=
  Context.t -> S -> option (S * option error).

(** Modelled from the spec: the combinators of [pkg/common/executor.go],
    which is not among the sources. [Then]: run self; if it succeeds, run
    next; propagate the first failure; a cancelled context stops the
    stages that follow. *)
Definition Then {S : Type} (e next : Executor S) : Executor S :=
  fun ctx s =>
    '(s1, err) ← e ctx s;
    match err with
    | Some _ => Some (s1, err)
    | None =>
        if Context.cancelled ctx then Some (s1, Some "context canceled")
        else next ctx s1
    end.

(** Modelled from the spec: [If]: evaluate self only when the predicate is
    truthy; otherwise yield success. *)
Definition If {S : Type} (e : Executor S) (conditional : Context.t -> S -> bool)
    : Executor S :=
  fun ctx s => if conditional ctx s then e ctx s else Some (s, None).

(** Modelled from the spec: [Finally]: run the cleanup after self whatever
    the outcome, under a detached context that carries only the logger
    binding; the failure of self is the one that surfaces, the failure of
    the cleanup is logged. *)
Definition Finally {S : Type} (e cleanup : Executor S) : Executor S :=
  fun ctx s =>
    '(s1, err) ← e ctx s;
    '(s2, _) ← cleanup (detached ctx) s1;
    Some (s2, err).

(** Modelled from the spec: [NewPipelineExecutor]: sequential composition
    that stops at the first failure. *)
Fixpoint NewPipelineExecutor {S : Type} (executors : list (Executor S))
    : Executor S :=
  match executors with
  | [] => fun _ s => Some (s, None)
  | [e] => e
  | e :: rest => Then e (NewPipelineExecutor rest)
  end.

(** ** Stopping the job container *)

(** An operation of the container backend, and the record of one call: the
    operation and the context it ran under. *)
Inductive ContainerOp : Type :=
| OpRemove (c : Container)
| OpVolumeRemove (volume : string) (force : bool)
| OpClose (c : Container).

Module Call.
Record t := mk {
  op : ContainerOp;
  ctx : Context.t
}.
End Call.

(** The container backend, which the file consumes: whether an operation
    fails, given the calls made so far. *)
Class Backend := {
  outcome : list Call.t -> ContainerOp -> option error
}.

(** The executor of one backend operation: [c.Remove()], [c.Close()] or
    [container.NewDockerVolumeRemoveExecutor(volume, force)]. *)
Definition perform `{Backend} (o : ContainerOp) : Executor (list Call.t) :=
  fun ctx calls => Some ((calls ++ [Call.mk o ctx])%list, outcome calls o).

(** [rc.stopJobContainer()]. *)
Definition stopJobContainer `{Backend} (cfg : Config.t) (rc : RunContext.t)
    : Executor (list Call.t) :=
  fun ctx calls =>
    match RunContext.JobContainer rc with
    | Some c =>
        if negb (Config.ReuseContainers cfg) then
          name ← jobContainerName rc;
          Finally
            (Then (perform (OpRemove c))
                  (If (perform (OpVolumeRemove name false))
                      (fun _ _ => negb (isHostExecutor c))))
            (perform (OpClose c))
            (WithLogger Background (LoggerOf ctx)) calls
        else Some (calls, None)
    | None => Some (calls, None)
    end.

(** ** The expression gate *)

(** [parts[i]]; out of range it panics. *)
Definition index {A : Type} (l : list A) (i : Z) : option A :=
  if (i <? 0)%Z then None else l !! Z.to_nat i.

(** [previousOrNextPartIsAnOperator(i, parts)]. *)
Definition previousOrNextPartIsAnOperator `{Patterns} (i : Z) (parts : list string)
    : option bool :=
  operator ←
    (if (i >? 0)%Z then operatorPattern <$> index parts (i - 1) else Some false);
  if (i + 1 <? Z.of_nat (length parts))%Z then
    if operator : bool then Some true
    else operatorPattern <$> index parts (i + 1)
  else Some operator.

(** The body of the loop of [EvalBool] for the token [part] at index [i]: the
    string it appends to [evaluatedParts]. *)
Definition evaluatePart `{Patterns} (ee : option ExpressionEvaluator.t)
    (parts : list string) (i : Z) (part : string) : option string :=
  if operatorPattern part then Some part
  else
    ev ← ee;
    let '(interpolatedPart, isString) :=
      ExpressionEvaluator.InterpolateWithStringCheck ev part in
    quote ←
      (if expressionPattern part && negb (Contains part "!")
          && String.eqb interpolatedPart "false"
       then if isString then Some true
            else previousOrNextPartIsAnOperator i parts
       else Some false);
    Some (if quote : bool then "'" +:+ interpolatedPart +:+ "'"
          else interpolatedPart).

Fixpoint evaluatePartsFrom `{Patterns} (ee : option ExpressionEvaluator.t)
    (parts : list string) (i : Z) (rest : list string)
    (evaluatedParts : list string) : option (list string) :=
  match rest with
  | [] => Some evaluatedParts
  | part :: rest' =>
      evaluatedPart ← evaluatePart ee parts i part;
      evaluatePartsFrom ee parts (i + 1) rest' (evaluatedParts ++ [evaluatedPart])%list
  end.

(** The slice [evaluatedParts] at the end of the loop of [EvalBool]. *)
Definition evaluateParts `{Patterns} (ee : option ExpressionEvaluator.t)
    (parts : list string) : option (list string) :=
  evaluatePartsFrom ee parts 0 parts [].

(** [rc.EvalBool(expr)]. It calls [rc.ExprEval], a nil interface panics. *)
Definition EvalBool `{Patterns} (rc : RunContext.t) (expr : string)
    : option (bool * option error) :=
  if HasPrefix (TrimSpace expr) "!" then
    Some (false, Some "expressions starting with ! must be wrapped in ${{ }}")
  else if negb (String.eqb expr "") then
    let parts := splitPattern expr in
    evaluatedParts ← evaluateParts (RunContext.ExprEval rc) parts;
    let joined := Join evaluatedParts " " in
    ev ← RunContext.ExprEval rc;
    let '(v, _, err) :=
      ExpressionEvaluator.Evaluate ev ("Boolean(" +:+ joined +:+ ")") in
    match err with
    | Some e => Some (false, Some e)
    | None => Some (String.eqb v "true", None)
    end
  else Some (true, None).

(** ** The step dispatcher *)

(** [rc.getStepsContext()]: the map, allocated when it was nil. *)
Definition getStepsContext (rc : RunContext.t)
    : gmap string stepResult.t * RunContext.t :=
  match RunContext.StepResults rc with
  | None => (∅, RunContext.setStepResults (Some ∅) rc)
  | Some results => (results, rc)
  end.

(** The assignment of a pointer to a new [result] to the entry of [id] in
    the steps context. *)
Definition putStepResult (id : string) (result : stepResult.t) (rc : RunContext.t)
    : RunContext.t :=
  let '(results, rc) := getStepsContext rc in
  RunContext.setStepResults (Some (<[id := result]> results)) rc.

(** The assignment of [success] to the field [Success] of the entry of [id]
    in the steps context. The entry is a pointer: without an entry the
    assignment goes through nil and panics. *)
Definition setStepSuccess (id : string) (success : bool) (rc : RunContext.t)
    : option RunContext.t :=
  let '(results, rc) := getStepsContext rc in
  result ← results !! id;
  Some (RunContext.setStepResults
          (Some (<[id := stepResult.setSuccess success result]> results)) rc).

(** [rc.newStepExecutor(step)]. In the branch of a failed evaluation the
    source declares a second [err] for the result of [setupEnv], which hides
    the error of [EvalBool]; the [err] that branch returns is that second
    one. Logging is left out. *)
Definition newStepExecutor `{Patterns} `{StepEngine} (step : Step.t)
    : Executor RunContext.t :=
  fun ctx rc =>
    let rc := RunContext.setCurrentStep (Step.ID step) rc in
    let rc :=
      putStepResult (RunContext.CurrentStep rc)
        (stepResult.mk true (Some ∅)) rc in
    '(runStep, err) ← EvalBool rc (Step.If step);
    match err with
    | Some _ =>
        let '(rc, exprEval, err) := setupEnv step rc in
        match err with
        | Some _ => Some (rc, err)
        | None =>
            let rc := RunContext.setExprEval exprEval rc in
            rc ← setStepSuccess (RunContext.CurrentStep rc) false rc;
            Some (rc, err)
        end
    | None =>
        if negb runStep then Some (rc, None)
        else
          let '(rc, exprEval, err) := setupEnv step rc in
          match err with
          | Some _ => Some (rc, err)
          | None =>
              let rc := RunContext.setExprEval exprEval rc in
              let '(rc, err) := stepExecutor step rc in
              match err with
              | None => Some (rc, err)
              | Some _ =>
                  if Step.ContinueOnError step then
                    let err : option error := None in
                    rc ← setStepSuccess (RunContext.CurrentStep rc) true rc;
                    Some (rc, err)
                  else
                    rc ← setStepSuccess (RunContext.CurrentStep rc) false rc;
                    Some (rc, err)
              end
          end
    end.

(** [fmt.Sprintf("%d", i)] for an index. *)
Definition decimal (i : nat) : string :=
  NilEmpty.string_of_uint (Nat.to_uint i).

(** The loop of [rc.Executor()] and of [rc.CompositeExecutor()] over the
    steps: a step without an ID gets its index as ID. *)
Fixpoint stepExecutorsFrom `{Patterns} `{StepEngine} (i : nat) (steps : list Step.t)
    : list (Executor RunContext.t) :=
  match steps with
  | [] => []
  | step :: rest =>
      let step :=
        if String.eqb (Step.ID step) ""
        then Step.mk (decimal i) (Step.If step) (Step.ContinueOnError step)
        else step in
      newStepExecutor step :: stepExecutorsFrom (S i) rest
  end.

(** [rc.CompositeExecutor()] for the steps of the composite action. *)
Definition CompositeExecutor `{Patterns} `{StepEngine} (steps : list Step.t)
    : Executor RunContext.t :=
  NewPipelineExecutor (stepExecutorsFrom 0 steps).

(** ** The github context *)

(** [asString(v)]. *)
Definition asString (v : jsonValue) : string :=
  match v with
  | JString s => s
  | _ => ""
  end.

(** [nestedMapLookup(m, ks...)]. *)
Fixpoint nestedMapLookup (m : gmap string jsonValue) (ks : list string) : jsonValue :=
  match ks with
  | [] => JNull
  | k :: rest =>
      match m !! k with
      | None => JNull
      | Some rval =>
          match rest with
          | [] => rval
          | _ :: _ =>
              match rval with
              | JObject m' => nestedMapLookup m' rest
              | _ => JNull
              end
          end
      end
  end.

(** [withDefaultBranch(b, event)]. The event may be the nil map: the reads
    of it find nothing, and the assignment [event["repository"] = repo] to
    an entry in the nil map panics. The result [None] is that panic;
    otherwise the result is the map returned, [Some None] when that is the
    nil map. *)
Definition withDefaultBranch (b : string) (event : option (gmap string jsonValue))
    : option (option (gmap string jsonValue)) :=
  let repoI := default (JObject ∅) (readMap event !! "repository") in
  match repoI with
  | JObject repo =>
      match repo !! "default_branch" with
      | Some _ => Some event
      | None =>
          m ← event;
          Some (Some (<["repository" :=
                        JObject (<["default_branch" := JString b]> repo)]> m))
      end
  | _ => Some event
  end.

(** [strings.Split(s, sep)[0]] for a non-empty [sep]. *)
Definition splitFirst (s sep : string) : string :=
  match Index s sep with
  | None => s
  | Some i => take i s
  end.

(** [ghc.applyDefaults(rc)]. The type assertion of a [ref] of the event that
    is not a string panics, and so does [withDefaultBranch] for an event
    that is the nil map. *)
Definition applyDefaults `{Host} (ghc : githubContext.t) (cfg : Config.t)
    (rc : RunContext.t) : option githubContext.t :=
  let orDefault (v d : string) := if String.eqb v "" then d else v in
  let RunID := orDefault (githubContext.RunID ghc) "1" in
  let RunNumber := orDefault (githubContext.RunNumber ghc) "1" in
  let RetentionDays := orDefault (githubContext.RetentionDays ghc) "0" in
  let RunnerPerflog := orDefault (githubContext.RunnerPerflog ghc) "/dev/null" in
  let Actor := orDefault (githubContext.Actor ghc) "nektos/act" in
  let repoPath := Config.Workdir cfg in
  let '(repo, err) := FindGithubRepo repoPath (Config.GitHubInstance cfg) in
  let '(Repository, RepositoryOwner) :=
    match err with
    | Some _ => (githubContext.Repository ghc, githubContext.RepositoryOwner ghc)
    | None =>
        (repo,
         if String.eqb (githubContext.RepositoryOwner ghc) ""
         then splitFirst repo "/"
         else githubContext.RepositoryOwner ghc)
    end in
  let '(_, sha, err) := FindGitRevision repoPath in
  let Sha := match err with Some _ => githubContext.Sha ghc | None => sha end in
  let Event :=
    if negb (String.eqb (RunContext.EventJSON rc) "")
    then fst (unmarshalEvent (RunContext.EventJSON rc) (githubContext.Event ghc))
    else githubContext.Event ghc in
  let EventName := githubContext.EventName ghc in
  let maybeRef := nestedMapLookup (readMap Event) [EventName; "ref"] in
  refAndEvent ←
    match maybeRef with
    | JNull =>
        let '(ref, err) := FindGitRef repoPath in
        let Ref := match err with Some _ => githubContext.Ref ghc | None => ref end in
        Event ←
          (if negb (String.eqb (Config.DefaultBranch cfg) "")
           then withDefaultBranch (Config.DefaultBranch cfg) Event
           else withDefaultBranch "master" Event);
        Some (Ref, Event)
    | JString ref => Some (ref, Event)
    | _ => None
    end;
  let '(Ref, Event) := refAndEvent : string * option (gmap string jsonValue) in
  let '(BaseRef, HeadRef) :=
    if String.eqb EventName "pull_request"
    then (asString (nestedMapLookup (readMap Event) ["pull_request"; "base"; "ref"]),
          asString (nestedMapLookup (readMap Event) ["pull_request"; "head"; "ref"]))
    else (githubContext.BaseRef ghc, githubContext.HeadRef ghc) in
  Some {|
    githubContext.Event := Event;
    githubContext.EventPath := githubContext.EventPath ghc;
    githubContext.Workflow := githubContext.Workflow ghc;
    githubContext.RunID := RunID;
    githubContext.RunNumber := RunNumber;
    githubContext.Actor := Actor;
    githubContext.Repository := Repository;
    githubContext.EventName := EventName;
    githubContext.Sha := Sha;
    githubContext.Ref := Ref;
    githubContext.HeadRef := HeadRef;
    githubContext.BaseRef := BaseRef;
    githubContext.Token := githubContext.Token ghc;
    githubContext.Workspace := githubContext.Workspace ghc;
    githubContext.Action := githubContext.Action ghc;
    githubContext.ActionPath := githubContext.ActionPath ghc;
    githubContext.ActionRef := githubContext.ActionRef ghc;
    githubContext.ActionRepository := githubContext.ActionRepository ghc;
    githubContext.Job := githubContext.Job ghc;
    githubContext.JobName := githubContext.JobName ghc;
    githubContext.RepositoryOwner := RepositoryOwner;
    githubContext.RetentionDays := RetentionDays;
    githubContext.RunnerPerflog := RunnerPerflog;
    githubContext.RunnerTrackingID := githubContext.RunnerTrackingID ghc
  |}.

(** [rc.getGithubContext()]. *)
Definition getGithubContext `{Host} (cfg : Config.t) (rc : RunContext.t)
    : option githubContext.t :=
  let ghc := {|
    githubContext.Event := Some ∅;
    githubContext.EventPath := GetActPath rc +:+ "/workflow/event.json";
    githubContext.Workflow := Run.WorkflowName (RunContext.Run rc);
    githubContext.RunID := mapGet (Config.Env cfg) "GITHUB_RUN_ID";
    githubContext.RunNumber := mapGet (Config.Env cfg) "GITHUB_RUN_NUMBER";
    githubContext.Actor := Config.Actor cfg;
    githubContext.Repository := "";
    githubContext.EventName := Config.EventName cfg;
    githubContext.Sha := "";
    githubContext.Ref := "";
    githubContext.HeadRef := "";
    githubContext.BaseRef := "";
    githubContext.Token := mapGet (Config.Secrets cfg) "GITHUB_TOKEN";
    githubContext.Workspace := ContainerWorkdir cfg rc;
    githubContext.Action := RunContext.CurrentStep rc;
    githubContext.ActionPath := RunContext.ActionPath rc;
    githubContext.ActionRef := RunContext.ActionRef rc;
    githubContext.ActionRepository := RunContext.ActionRepository rc;
    githubContext.Job := "";
    githubContext.JobName := "";
    githubContext.RepositoryOwner := mapGet (Config.Env cfg) "GITHUB_REPOSITORY_OWNER";
    githubContext.RetentionDays := mapGet (Config.Env cfg) "GITHUB_RETENTION_DAYS";
    githubContext.RunnerPerflog := mapGet (Config.Env cfg) "RUNNER_PERFLOG";
    githubContext.RunnerTrackingID := mapGet (Config.Env cfg) "RUNNER_TRACKING_ID"
  |} in
  match RunContext.GithubContextBase rc with
  | Some base =>
      let '(ghc, err) := unmarshalGithubContext base ghc in
      match err with
      | None => Some ghc
      | Some _ => applyDefaults ghc cfg rc
      end
  | None => applyDefaults ghc cfg rc
  end.

(** ** The environment of a step *)

(** The value that [withGithubEnv] stores under ["ImageOS"] for a non-empty
    interpolated label. *)
Definition imageOS (platformName : string) : string :=
  if String.eqb platformName "ubuntu-latest" then "ubuntu20"
  else default "" (head (SplitN2 (Replace platformName "-" "" 1) ".")).

(** The loop of [withGithubEnv] over the labels of [runs-on]. *)
Fixpoint imageOSLoop (ee : option ExpressionEvaluator.t) (labels : list string)
    (env : gmap string string) : option (gmap string string) :=
  match labels with
  | [] => Some env
  | runnerLabel :: rest =>
      ev ← ee;
      let platformName := ExpressionEvaluator.Interpolate ev runnerLabel in
      let env :=
        if negb (String.eqb platformName "")
        then <["ImageOS" := imageOS platformName]> env
        else env in
      imageOSLoop ee rest env
  end.

(** The assignments of [withGithubEnv] that precede its loop, for the github
    context [github]. *)
Definition githubEnvAssignments (cfg : Config.t) (rc : RunContext.t)
    (github : githubContext.t) (env : gmap string string) : gmap string string :=
  let env := <["CI" := "true"]> env in
  let env := <["GITHUB_ENV" := GetActPath rc +:+ "/workflow/envs.txt"]> env in
  let env := <["GITHUB_PATH" := GetActPath rc +:+ "/workflow/paths.txt"]> env in
  let env := <["GITHUB_WORKFLOW" := githubContext.Workflow github]> env in
  let env := <["GITHUB_RUN_ID" := githubContext.RunID github]> env in
  let env := <["GITHUB_RUN_NUMBER" := githubContext.RunNumber github]> env in
  let env := <["GITHUB_ACTION" := githubContext.Action github]> env in
  let env :=
    if negb (String.eqb (githubContext.ActionPath github) "")
    then <["GITHUB_ACTION_PATH" := githubContext.ActionPath github]> env
    else env in
  let env := <["GITHUB_ACTIONS" := "true"]> env in
  let env := <["GITHUB_ACTOR" := githubContext.Actor github]> env in
  let env := <["GITHUB_REPOSITORY" := githubContext.Repository github]> env in
  let env := <["GITHUB_EVENT_NAME" := githubContext.EventName github]> env in
  let env := <["GITHUB_EVENT_PATH" := githubContext.EventPath github]> env in
  let env := <["GITHUB_WORKSPACE" := githubContext.Workspace github]> env in
  let env := <["GITHUB_SHA" := githubContext.Sha github]> env in
  let env := <["GITHUB_REF" := githubContext.Ref github]> env in
  let env := <["GITHUB_TOKEN" := githubContext.Token github]> env in
  let env := <["GITHUB_SERVER_URL" := "https://github.com"]> env in
  let env := <["GITHUB_API_URL" := "https://api.github.com"]> env in
  let env := <["GITHUB_GRAPHQL_URL" := "https://api.github.com/graphql"]> env in
  let env := <["GITHUB_ACTION_REF" := githubContext.ActionRef github]> env in
  let env := <["GITHUB_ACTION_REPOSITORY" := githubContext.ActionRepository github]> env in
  let env := <["GITHUB_BASE_REF" := githubContext.BaseRef github]> env in
  let env := <["GITHUB_HEAD_REF" := githubContext.HeadRef github]> env in
  let env := <["GITHUB_JOB" := RunContext.JobName rc]> env in
  let env := <["GITHUB_REPOSITORY_OWNER" := githubContext.RepositoryOwner github]> env in
  let env := <["GITHUB_RETENTION_DAYS" := githubContext.RetentionDays github]> env in
  let env := <["RUNNER_PERFLOG" := githubContext.RunnerPerflog github]> env in
  let env := <["RUNNER_TRACKING_ID" := githubContext.RunnerTrackingID github]> env in
  if negb (String.eqb (Config.GitHubInstance cfg) "github.com")
  then
    let env := <["GITHUB_SERVER_URL" := "https://" +:+ Config.GitHubInstance cfg]> env in
    let env := <["GITHUB_API_URL" :=
                 "https://" +:+ Config.GitHubInstance cfg +:+ "/api/v3"]> env in
    <["GITHUB_GRAPHQL_URL" :=
      "https://" +:+ Config.GitHubInstance cfg +:+ "/api/graphql"]> env
  else env.

(** [rc.withGithubEnv(env)]: the map it returns, which is the map it was
    given, written in place. *)
Definition withGithubEnv `{Host} (cfg : Config.t) (rc : RunContext.t)
    (env : gmap string string) : option (gmap string string) :=
  github ← getGithubContext cfg rc;
  let env := githubEnvAssignments cfg rc github env in
  match Job.RunsOn (Run.Job (RunContext.Run rc)) with
  | Some labels => imageOSLoop (RunContext.ExprEval rc) labels env
  | None => Some env
  end.

(** ** The other functions of the file *)

(** [rc.SetActPath(actPath)]. *)
Definition SetActPath (actPath : string) (rc : RunContext.t) : RunContext.t :=
  RunContext.mk (RunContext.GithubContextBase rc) (RunContext.Name rc)
    (RunContext.Run rc) (RunContext.EventJSON rc) (RunContext.Env rc)
    (RunContext.ExtraPath rc) (RunContext.CurrentStep rc)
    (RunContext.StepResults rc) (RunContext.ExprEval rc)
    (RunContext.JobContainer rc) (RunContext.JobName rc) actPath
    (RunContext.Local rc) (RunContext.ActionPath rc) (RunContext.ActionRef rc)
    (RunContext.ActionRepository rc).

(** [jobContext]; [getJobContext] sets its [Status] only. *)
Module jobContext.
Record t := mk {
  Status : string;
  ContainerID : string;
  ContainerNetwork : string;
  Services : gmap string string
}.
End jobContext.

(** [rc.getJobContext()]. The loop of the source leaves at the first failed
    step; the status it has then is the one a full pass gives. *)
Definition getJobContext (rc : RunContext.t) : jobContext.t * RunContext.t :=
  let '(results, rc) := getStepsContext rc in
  let jobStatus :=
    map_fold
      (fun (_ : string) (stepStatus : stepResult.t) (jobStatus : string) =>
         if negb (stepResult.Success stepStatus) then "failure" else jobStatus)
      "success" results in
  (jobContext.mk jobStatus "" "" ∅, rc).

(** What [platformImage] and [interpolateOutputs] read of the job through
    [pkg/model]: the image of [job.Container()], [None] for a job without
    container, and the map [job.Outputs]. *)
Class JobModel := {
  jobContainerImage : Job.t -> option string;
  jobOutputs : Job.t -> gmap string string
}.

(** [strings.ToLower], which lowers the letters of all of Unicode. *)
Class Unicode := {
  ToLower : string -> string
}.

(** The loop of [platformImage] over the labels of [runs-on]. *)
Fixpoint platformImageLoop `{Unicode} (ee : option ExpressionEvaluator.t)
    (platforms : gmap string string) (labels : list string) : option string :=
  match labels with
  | [] => Some ""
  | runnerLabel :: rest =>
      ev ← ee;
      let platformName := ExpressionEvaluator.Interpolate ev runnerLabel in
      let image := mapGet platforms (ToLower platformName) in
      if negb (String.eqb image "") then Some image
      else platformImageLoop ee platforms rest
  end.

(** [rc.platformImage()]. *)
Definition platformImage `{JobModel} `{Unicode} (cfg : Config.t) (rc : RunContext.t)
    : option string :=
  let job := Run.Job (RunContext.Run rc) in
  match jobContainerImage job with
  | Some image =>
      ev ← RunContext.ExprEval rc;
      Some (ExpressionEvaluator.Interpolate ev image)
  | None =>
      platformImageLoop (RunContext.ExprEval rc) (Config.Platforms cfg)
        (default [] (Job.RunsOn job))
  end.

(** [rc.isEnabled(ctx)]. Logging is left out, and with it the loop that
    only logs the labels of an unsupported platform. *)
Definition isEnabled `{Patterns} `{JobModel} `{Unicode} (cfg : Config.t)
    (rc : RunContext.t) : option bool :=
  let job := Run.Job (RunContext.Run rc) in
  '(runJob, err) ← EvalBool rc (Job.If job);
  match err with
  | Some _ => Some false
  | None =>
      if negb runJob then Some false
      else
        img ← platformImage cfg rc;
        if String.eqb img "" then Some false else Some true
  end.

(** The loop of [interpolateOutputs] with the evaluator [ee] that
    [rc.NewExpressionEvaluator()] made: the map [job.Outputs] it leaves. The
    loop writes to the map it ranges over, under keys that the map has. *)
Definition interpolateOutputsWith (ee : ExpressionEvaluator.t)
    (outputs : gmap string string) : gmap string string :=
  map_fold
    (fun k v (outputs : gmap string string) =>
       let interpolated := ExpressionEvaluator.Interpolate ee v in
       if negb (String.eqb v interpolated) then <[k := interpolated]> outputs
       else outputs)
    outputs outputs.

(** ** Plain descriptions, used to state what the code computes *)

(** The value of a key in the merge of three maps: the last map that
    defines the key decides. *)
Definition lastDefined (a b c : gmap string string) (k : string) : option string :=
  match c !! k with
  | Some v => Some v
  | None => match b !! k with
            | Some v => Some v
            | None => a !! k
            end
  end.

(** The backend calls of a teardown of the container [c]: [Remove], then
    the removal of the volume [name] when [Remove] succeeded and [c] is not a
    host executor, then [Close]. *)
Definition teardownOps (removed : bool) (c : Container) (name : string)
    : list ContainerOp :=
  [OpRemove c]
  ++ (if removed && negb (isHostExecutor c) then [OpVolumeRemove name false] else [])
  ++ [OpClose c].

(** The operations that an executor called, in order. *)
Definition calledOps (result : option (list Call.t * option error))
    : option (list ContainerOp) :=
  match result with
  | Some (calls, _) => Some (Call.op <$> calls)
  | None => None
  end.

(** The run context at the entry of the executor of [step]: the current
    step is set and the result of the step is fresh. *)
Definition stepEntry (step : Step.t) (rc : RunContext.t) : RunContext.t :=
  putStepResult (Step.ID step) (stepResult.mk true (Some ∅))
    (RunContext.setCurrentStep (Step.ID step) rc).

(** [rc.StepResults[id].Success], when there is such an entry. *)
Definition stepSuccess (id : string) (rc : RunContext.t) : option bool :=
  match RunContext.StepResults rc with
  | Some results => stepResult.Success <$> results !! id
  | None => None
  end.

(** The error that an executor returned. *)
Definition returnedError {S : Type} (result : option (S * option error))
    : option (option error) :=
  match result with
  | Some (_, err) => Some err
  | None => None
  end.

(** The state that an executor left. *)
Definition finalState {S : Type} (result : option (S * option error)) : option S :=
  match result with
  | Some (s, _) => Some s
  | None => None
  end.

(** [s] between single quotes. *)
Definition quoted (s : string) : string := "'" +:+ s +:+ "'".

(** The token before or the token after the one at index [i] is an
    operator. *)
Definition neighbourIsOperator `{Patterns} (i : nat) (parts : list string) : Prop :=
  (∃ p, (0 < i)%nat ∧ parts !! (i - 1)%nat = Some p ∧ operatorPattern p = true)
  ∨ (∃ p, parts !! (i + 1)%nat = Some p ∧ operatorPattern p = true).

(** The conditions of the quoting rule for the token [part] at index [i],
    interpolated to [interpolated] and typed as [isString] says. *)
Definition quotingRule `{Patterns} (i : nat) (parts : list string) (part : string)
    (interpolated : string) (isString : bool) : Prop :=
  expressionPattern part = true
  ∧ Contains part "!" = false
  ∧ interpolated = "false"
  ∧ (isString = true ∨ neighbourIsOperator i parts).

(** A function on maps that writes fixed values under fixed keys: it lays
    one map over its argument. *)
Definition isOverlay (f : gmap string string -> gmap string string) : Prop :=
  ∃ o : gmap string string, ∀ m, f m = o ∪ m.

(** The same for a function that may panic, for every argument or for none. *)
Definition isOverlayOrPanic (f : gmap string string -> option (gmap string string))
    : Prop :=
  (∀ m, f m = None) ∨ (∃ o : gmap string string, ∀ m, f m = Some (o ∪ m)).

(** The value of ["ImageOS"] for a label, in the words of the specification:
    ["ubuntu20"] for ["ubuntu-latest"], otherwise the label without its
    first hyphen, up to its first dot. *)
Definition imageOSOfLabel (label : string) : string :=
  if decide (label = "ubuntu-latest") then "ubuntu20"
  else upToFirstDot (dropFirstHyphen label).

(** The non-empty interpolations of the labels, in order. *)
Definition nonEmptyLabels (ev : ExpressionEvaluator.t) (labels : list string)
    : list string :=
  filter (fun p => p ≠ "") (ExpressionEvaluator.Interpolate ev <$> labels).

(** The characters of a container name: ASCII letters, digits and the
    hyphen. *)
Definition isNameChar (c : ascii) : bool := isAlnum c || isHyphen c.

(** The language of the pattern [^[A-Za-z0-9]+(-[A-Za-z0-9]+)*$], read as
    it is written: a run of letters and digits, then any number of times a
    hyphen and such a run. *)
Inductive alnumRun : string -> Prop :=
| alnumRun_one (c : ascii) :
    isAlnum c = true -> alnumRun (String c EmptyString)
| alnumRun_more (c : ascii) (s : string) :
    isAlnum c = true -> alnumRun s -> alnumRun (String c s).

Inductive nameLanguage : string -> Prop :=
| nameLanguage_run (s : string) :
    alnumRun s -> nameLanguage s
| nameLanguage_hyphen (s t : string) :
    alnumRun s -> nameLanguage t -> nameLanguage (s +:+ "-" +:+ t).

(** [s] is empty or starts with an ASCII byte, which is a rune on its own. *)
Definition startsAscii (s : string) : bool :=
  match s with
  | EmptyString => true
  | String c _ => (byteVal c <? 128)%nat
  end.

(** The number of bytes at the start of [s] that are not ASCII. *)
Fixpoint leadingNonAscii (s : string) : nat :=
  match s with
  | EmptyString => 0
  | String c r => if (byteVal c <? 128)%nat then 0 else S (leadingNonAscii r)
  end.

(** ** Sample collaborators and inputs, for the examples *)

(** A host without a git repository, whose decoders read nothing. *)
Definition sampleHost : Host := {|
  unmarshalGithubContext := fun _ ghc => (ghc, Some "unexpected end of JSON input");
  unmarshalEvent := fun _ event => (event, None);
  FindGithubRepo := fun _ _ => ("", Some "repository does not exist");
  FindGitRevision := fun _ => ("", "", Some "repository does not exist");
  FindGitRef := fun _ => ("", Some "repository does not exist");
  ContainerWorkdir := fun cfg _ => Config.Workdir cfg;
  GOOS := "linux"
|}.

Definition sampleConfig : Config.t := {|
  Config.Workdir := "/work";
  Config.BindWorkdir := false;
  Config.EventName := "push";
  Config.Actor := "";
  Config.DefaultBranch := "";
  Config.ReuseContainers := false;
  Config.ForcePull := false;
  Config.ForceRemoteCheckout := false;
  Config.LogOutput := false;
  Config.UseGitIgnore := false;
  Config.Privileged := false;
  Config.UsernsMode := "";
  Config.ContainerArchitecture := "";
  Config.ContainerDaemonSocket := "";
  Config.GitHubInstance := "github.com";
  Config.Env := ∅;
  Config.Secrets := ∅;
  Config.Platforms := ∅
|}.

(** An evaluator that interpolates nothing, reports every token as a string
    and fails to evaluate. *)
Definition sampleEvaluator : ExpressionEvaluator.t := {|
  ExpressionEvaluator.Evaluate := fun _ => ("", false, Some "evaluation failed");
  ExpressionEvaluator.Interpolate := fun s => s;
  ExpressionEvaluator.InterpolateWithStringCheck := fun s => (s, true)
|}.

Definition sampleJob (runsOn : option (list string)) : Job.t := {|
  Job.Name := "build";
  Job.If := "";
  Job.RunsOn := runsOn;
  Job.Environment := ∅
|}.

(** A run context of the workflow [workflow] and the job [name]. *)
Definition sampleContext (workflow name : string) (runsOn : option (list string))
    (jobContainer : option Container) : RunContext.t := {|
  RunContext.GithubContextBase := None;
  RunContext.Name := name;
  RunContext.Run := Run.mk workflow ∅ (sampleJob runsOn);
  RunContext.EventJSON := "";
  RunContext.Env := None;
  RunContext.ExtraPath := [];
  RunContext.CurrentStep := "";
  RunContext.StepResults := None;
  RunContext.ExprEval := Some sampleEvaluator;
  RunContext.JobContainer := jobContainer;
  RunContext.JobName := name;
  RunContext.actPath := "";
  RunContext.Local := false;
  RunContext.ActionPath := "";
  RunContext.ActionRef := "";
  RunContext.ActionRepository := ""
|}.

(** A backend whose [Remove] fails and whose other operations succeed, and
    one where every operation succeeds. *)
Definition removeFails : Backend := {|
  outcome := fun _ o =>
    match o with
    | OpRemove _ => Some "no such container"
    | _ => None
    end
|}.

Definition allSucceed : Backend := {| outcome := fun _ _ => None |}.

(** A step engine whose [setupEnv] succeeds with [sampleEvaluator] and whose
    step fails after it recorded an output. *)
Definition failingEngine : StepEngine := {|
  setupEnv := fun _ rc => (rc, Some sampleEvaluator, None);
  stepExecutor := fun step rc =>
    (putStepResult (Step.ID step)
       (stepResult.mk true (Some (<["out" := "1"]> ∅))) rc,
     Some "exit with `FAILURE`: 1")
|}.

(** An evaluator whose variable [env.FLAG] holds the text [false], untyped. *)
Definition flagEvaluator : ExpressionEvaluator.t := {|
  ExpressionEvaluator.Evaluate := fun s => (s, false, None);
  ExpressionEvaluator.Interpolate :=
    fun s => if String.eqb s "${{env.FLAG}}" then "false" else s;
  ExpressionEvaluator.InterpolateWithStringCheck :=
    fun s => if String.eqb s "${{env.FLAG}}" then ("false", false) else (s, false)
|}.

(** A step engine whose [setupEnv] fails. *)
Definition setupFailsEngine : StepEngine := {|
  setupEnv := fun _ rc => (rc, None, Some "unable to interpolate");
  stepExecutor := fun _ rc => (rc, None)
|}.

(** Patterns for the examples: an operator is a run of the characters of
    [!=><|&], an expression block a token that holds the two braces of
    [${{ }}], and the tokens are the words between single spaces. *)
Fixpoint splitWords (word : string) (s : string) : list string :=
  match s with
  | EmptyString => if isEmpty word then [] else [reverse word]
  | String c r =>
      if Ascii.eqb c " "
      then (if isEmpty word then [] else [reverse word]) ++ splitWords EmptyString r
      else splitWords (String c word) r
  end.

Definition samplePatterns : Patterns := {|
  expressionPattern := fun s => Contains s "${{" && Contains s "}}";
  operatorPattern := fun s => negb (isEmpty s) && allChars (inCutset "!=><|&") s;
  splitPattern := splitWords EmptyString
|}.

(** ** Further plain descriptions and samples *)

(** The event of [applyDefaults] once [rc.EventJSON] is decoded into it. *)
Definition decodedEvent `{Host} (ghc : githubContext.t) (rc : RunContext.t)
    : option (gmap string jsonValue) :=
  if negb (String.eqb (RunContext.EventJSON rc) "")
  then fst (unmarshalEvent (RunContext.EventJSON rc) (githubContext.Event ghc))
  else githubContext.Event ghc.

(** The first byte of a string. *)
Definition firstChar (s : string) : option ascii :=
  match s with EmptyString => None | String c _ => Some c end.

(** The keys that [withGithubEnv] may write. *)
Definition githubEnvKeys : list string :=
  ["CI"; "GITHUB_ENV"; "GITHUB_PATH"; "GITHUB_WORKFLOW"; "GITHUB_RUN_ID";
   "GITHUB_RUN_NUMBER"; "GITHUB_ACTION"; "GITHUB_ACTION_PATH"; "GITHUB_ACTIONS";
   "GITHUB_ACTOR"; "GITHUB_REPOSITORY"; "GITHUB_EVENT_NAME"; "GITHUB_EVENT_PATH";
   "GITHUB_WORKSPACE"; "GITHUB_SHA"; "GITHUB_REF"; "GITHUB_TOKEN";
   "GITHUB_SERVER_URL"; "GITHUB_API_URL"; "GITHUB_GRAPHQL_URL";
   "GITHUB_ACTION_REF"; "GITHUB_ACTION_REPOSITORY"; "GITHUB_BASE_REF";
   "GITHUB_HEAD_REF"; "GITHUB_JOB"; "GITHUB_REPOSITORY_OWNER";
   "GITHUB_RETENTION_DAYS"; "RUNNER_PERFLOG"; "RUNNER_TRACKING_ID"; "ImageOS"].

(** A host in a git repository, whose event decoder reads a [push] event with
    a [ref]. *)
Definition repoHost : Host := {|
  unmarshalGithubContext := fun _ ghc => (ghc, Some "unexpected end of JSON input");
  unmarshalEvent := fun _ event =>
    (Some (<["push" := JObject (<["ref" := JString "refs/heads/dev"]> ∅)]>
             (readMap event)), None);
  FindGithubRepo := fun _ _ => ("nektos/act", None);
  FindGitRevision := fun _ => ("abcdef0", "abcdef0123456789", None);
  FindGitRef := fun _ => ("refs/heads/main", None);
  ContainerWorkdir := fun cfg _ => Config.Workdir cfg;
  GOOS := "linux"
|}.

(** A job model without job container and outputs, and the lowering of
    nothing. *)
Definition plainJobModel : JobModel := {|
  jobContainerImage := fun _ => None;
  jobOutputs := fun _ => ∅
|}.

Definition noLowering : Unicode := {| ToLower := fun s => s |}.

(** A step engine whose [setupEnv] and step succeed. *)
Definition succeedingEngine : StepEngine := {|
  setupEnv := fun _ rc => (rc, Some sampleEvaluator, None);
  stepExecutor := fun _ rc => (rc, None)
|}.

(** An evaluator for which every expression is false. *)
Definition falseEvaluator : ExpressionEvaluator.t := {|
  ExpressionEvaluator.Evaluate := fun _ => ("false", false, None);
  ExpressionEvaluator.Interpolate := fun s => s;
  ExpressionEvaluator.InterpolateWithStringCheck := fun s => (s, false)
|}.

(** An evaluator for which every expression is true. *)
Definition trueEvaluator : ExpressionEvaluator.t := {|
  ExpressionEvaluator.Evaluate := fun _ => ("true", false, None);
  ExpressionEvaluator.Interpolate := fun s => s;
  ExpressionEvaluator.InterpolateWithStringCheck := fun s => (s, false)
|}.

(** A github context with every field empty. *)
Definition emptyGithubContext : githubContext.t := {|
  githubContext.Event := Some ∅;
  githubContext.EventPath := "";
  githubContext.Workflow := "";
  githubContext.RunID := "";
  githubContext.RunNumber := "";
  githubContext.Actor := "";
  githubContext.Repository := "";
  githubContext.EventName := "push";
  githubContext.Sha := "";
  githubContext.Ref := "";
  githubContext.HeadRef := "";
  githubContext.BaseRef := "";
  githubContext.Token := "";
  githubContext.Workspace := "";
  githubContext.Action := "";
  githubContext.ActionPath := "";
  githubContext.ActionRef := "";
  githubContext.ActionRepository := "";
  githubContext.Job := "";
  githubContext.JobName := "";
  githubContext.RepositoryOwner := "";
  githubContext.RetentionDays := "";
  githubContext.RunnerPerflog := "";
  githubContext.RunnerTrackingID := ""
|}.

(** A host in a git repository whose event decoder reads the JSON text
    [null]: it leaves the nil map and reports no error. *)
Definition nullEventHost : Host := {|
  unmarshalGithubContext := fun _ ghc => (ghc, Some "unexpected end of JSON input");
  unmarshalEvent := fun _ _ => (None, None);
  FindGithubRepo := fun _ _ => ("nektos/act", None);
  FindGitRevision := fun _ => ("abcdef0", "abcdef0123456789", None);
  FindGitRef := fun _ => ("refs/heads/main", None);
  ContainerWorkdir := fun cfg _ => Config.Workdir cfg;
  GOOS := "linux"
|}.

(** The sample run context with the event [eventJSON]. *)
Definition sampleContextWithEvent (eventJSON : string) : RunContext.t :=
  let rc := sampleContext "ci" "build" None None in
  RunContext.mk (RunContext.GithubContextBase rc) (RunContext.Name rc)
    (RunContext.Run rc) eventJSON (RunContext.Env rc)
    (RunContext.ExtraPath rc) (RunContext.CurrentStep rc)
    (RunContext.StepResults rc) (RunContext.ExprEval rc)
    (RunContext.JobContainer rc) (RunContext.JobName rc) (RunContext.actPath rc)
    (RunContext.Local rc) (RunContext.ActionPath rc) (RunContext.ActionRef rc)
    (RunContext.ActionRepository rc).

(** A github context of a [pull_request] event from the branch [feature] to
    the branch [main]. *)
Definition pullRequestContext : githubContext.t := {|
  githubContext.Event :=
    Some (<["pull_request" :=
            JObject (<["base" := JObject (<["ref" := JString "main"]> ∅)]>
                     (<["head" := JObject (<["ref" := JString "feature"]> ∅)]> ∅))]>
          ∅);
  githubContext.EventPath := "";
  githubContext.Workflow := "";
  githubContext.RunID := "";
  githubContext.RunNumber := "";
  githubContext.Actor := "";
  githubContext.Repository := "";
  githubContext.EventName := "pull_request";
  githubContext.Sha := "";
  githubContext.Ref := "";
  githubContext.HeadRef := "";
  githubContext.BaseRef := "";
  githubContext.Token := "";
  githubContext.Workspace := "";
  githubContext.Action := "";
  githubContext.ActionPath := "";
  githubContext.ActionRef := "";
  githubContext.ActionRepository := "";
  githubContext.Job := "";
  githubContext.JobName := "";
  githubContext.RepositoryOwner := "";
  githubContext.RetentionDays := "";
  githubContext.RunnerPerflog := "";
  githubContext.RunnerTrackingID := ""
|}.

(** * Properties *)

(** ** Strings *)

#[local] Arguments String.append !_ _ / : simpl nomatch.

Lemma append_length (a b : string) :
  String.length (a +:+ b) = (String.length a + String.length b)%nat.
Proof. induction a as [|c a IH]; simpl; [done | by rewrite IH]. Qed.

Lemma append_assoc (a b c : string) : (a +:+ b) +:+ c = a +:+ (b +:+ c).
Proof. induction a as [|x a IH]; simpl; [done | by rewrite IH]. Qed.

Lemma append_empty_r (a : string) : a +:+ "" = a.
Proof. induction a as [|x a IH]; simpl; [done | by rewrite IH]. Qed.

(** ** Step results *)

Lemma initStepResultsLoop_lookup (keys : list string)
    (results : gmap string stepResult.t) (k : string) :
  initStepResultsLoop keys results !! k =
    if decide (k ∈ keys) then Some (stepResult.mk true None) else results !! k.
Proof.
  revert results. induction keys as [|key rest IH]; intros results; simpl.
  - destruct (decide (k ∈ [])) as [Hin|]; [by apply elem_of_nil in Hin | done].
  - rewrite IH.
    destruct (decide (k ∈ rest)) as [Hrest|Hrest],
             (decide (k ∈ key :: rest)) as [Hall|Hall]; try done.
    + exfalso. apply Hall, elem_of_cons. by right.
    + apply elem_of_cons in Hall as [->|Hin]; [|done]. apply lookup_insert_eq.
    + rewrite lookup_insert_ne; [done|]. intros ->. apply Hall, elem_of_cons. by left.
Qed.

(** C10. After [rc.InitStepResults(ks)] the map of step results is allocated
    and holds, for every key of [ks] and for no other key, a result with
    [Success = true] and the nil [Outputs] map, whatever the run context
    held before; the result of a step entry, with its allocated empty map,
    is a different value. *)
Theorem InitStepResults_exact (ks : list string) (rc : RunContext.t) :
  ∃ results : gmap string stepResult.t,
    RunContext.StepResults (InitStepResults ks rc) = Some results
    ∧ dom results = list_to_set ks
    ∧ (∀ k, results !! k =
            if decide (k ∈ ks) then Some (stepResult.mk true None) else None)
    ∧ stepResult.Outputs (stepResult.mk true None)
      ≠ stepResult.Outputs (stepResult.mk true (Some ∅)).
Proof.
  exists (initStepResultsLoop ks ∅). split; [done|].
  assert (Hlook : ∀ k, initStepResultsLoop ks ∅ !! k =
            if decide (k ∈ ks) then Some (stepResult.mk true None) else None).
  { intros k. rewrite initStepResultsLoop_lookup. by rewrite lookup_empty. }
  split; [|split; [done|]].
  - apply set_eq. intros k. rewrite elem_of_dom, Hlook, elem_of_list_to_set.
    destruct (decide (k ∈ ks)); split; intros Hk; done.
  - done.
Qed.

(** ** The environment *)

Lemma map_fold_insert_union (m acc : gmap string string) :
  map_fold (fun k v r => <[k := v]> r) acc m = m ∪ acc.
Proof.
  induction m as [|k v m Hk Hfold IH] using map_first_key_ind.
  - by rewrite map_fold_empty, (left_id_L ∅ (∪)).
  - rewrite map_fold_insert_first_key by done.
    rewrite IH. by rewrite insert_union_l.
Qed.

Lemma mergeMaps_three (a b c : gmap string string) :
  mergeMaps [a; b; c] = c ∪ (b ∪ a).
Proof.
  unfold mergeMaps; simpl. rewrite !map_fold_insert_union.
  by rewrite (right_id_L ∅ (∪)).
Qed.

Lemma mergeMaps_lookup (a b c : gmap string string) (k : string) :
  mergeMaps [a; b; c] !! k = lastDefined a b c k.
Proof.
  rewrite mergeMaps_three, !lookup_union. unfold lastDefined.
  destruct (c !! k), (b !! k), (a !! k); done.
Qed.

(** C8. [GetEnv] computes the environment only when [rc.Env] is nil, as the
    merge in which the job value of a key wins over the workflow value, and
    that over the [Config] value; otherwise it keeps the map that is there.
    In both cases it stores ["ACT" = "true"] in the map, keeps the map in
    [rc.Env] and returns it. *)
Theorem GetEnv_merge_and_ACT (cfg : Config.t) (rc : RunContext.t) :
  let env := fst (GetEnv cfg rc) in
  let rc' := snd (GetEnv cfg rc) in
  RunContext.Env rc' = Some env
  ∧ env !! "ACT" = Some "true"
  ∧ match RunContext.Env rc with
    | None =>
        ∃ merged : gmap string string,
          env = <["ACT" := "true"]> merged
          ∧ ∀ k, merged !! k =
                 lastDefined (Config.Env cfg)
                   (Run.WorkflowEnv (RunContext.Run rc))
                   (Job.Environment (Run.Job (RunContext.Run rc))) k
    | Some old => env = <["ACT" := "true"]> old
    end.
Proof.
  unfold GetEnv; simpl. split; [done|]. split; [apply lookup_insert_eq|].
  destruct (RunContext.Env rc) as [old|]; [done|].
  eexists. split; [done|]. intros k. apply mergeMaps_lookup.
Qed.

(** ** Binds, mounts and the shared [Config] *)

Lemma jobContainerName_unfold (rc : RunContext.t) :
  jobContainerName rc =
    Some (ReplaceAll
            (Trim ("act-" +:+ replaceNonAlnum (contextString rc)) "-") "--" "-").
Proof. reflexivity. Qed.

(** C5, the input that refutes it: with an empty [ContainerDaemonSocket],
    [GetBindsAndMounts] leaves a [Config] that differs from the one it
    found, and a second run context of the same engine reads the new socket. *)
Lemma GetBindsAndMounts_writes_Config :
  let rc1 := sampleContext "ci" "build" None None in
  let rc2 := sampleContext "ci" "test" None None in
  ∃ binds mounts cfg',
    GetBindsAndMounts (H := sampleHost) sampleConfig rc1 = Some (binds, mounts, cfg')
    ∧ cfg' ≠ sampleConfig
    ∧ Config.ContainerDaemonSocket sampleConfig = ""
    ∧ Config.ContainerDaemonSocket cfg' = "/var/run/docker.sock"
    ∧ (fst ∘ fst <$> GetBindsAndMounts (H := sampleHost) cfg' rc2)
      = Some ["/var/run/docker.sock:/var/run/docker.sock"].
Proof.
  simpl. eexists _, _, _. split; [reflexivity|]. repeat split; try done.
Qed.

(** C5, amended. [GetBindsAndMounts] returns, and the [Config] it leaves
    differs from the one it found in the field [ContainerDaemonSocket] at
    most: an empty socket becomes ["/var/run/docker.sock"], a non-empty one
    stays, and every other field is unchanged. *)
Theorem GetBindsAndMounts_Config_frame `{Host} (cfg : Config.t) (rc : RunContext.t) :
  ∃ binds mounts cfg',
    GetBindsAndMounts cfg rc = Some (binds, mounts, cfg')
    ∧ cfg' = (if String.eqb (Config.ContainerDaemonSocket cfg) ""
              then Config.setContainerDaemonSocket "/var/run/docker.sock" cfg
              else cfg)
    ∧ Config.ContainerDaemonSocket cfg' =
        (if String.eqb (Config.ContainerDaemonSocket cfg) ""
         then "/var/run/docker.sock" else Config.ContainerDaemonSocket cfg)
    ∧ Config.Workdir cfg' = Config.Workdir cfg
    ∧ Config.BindWorkdir cfg' = Config.BindWorkdir cfg
    ∧ Config.EventName cfg' = Config.EventName cfg
    ∧ Config.Actor cfg' = Config.Actor cfg
    ∧ Config.DefaultBranch cfg' = Config.DefaultBranch cfg
    ∧ Config.ReuseContainers cfg' = Config.ReuseContainers cfg
    ∧ Config.ForcePull cfg' = Config.ForcePull cfg
    ∧ Config.ForceRemoteCheckout cfg' = Config.ForceRemoteCheckout cfg
    ∧ Config.LogOutput cfg' = Config.LogOutput cfg
    ∧ Config.UseGitIgnore cfg' = Config.UseGitIgnore cfg
    ∧ Config.Privileged cfg' = Config.Privileged cfg
    ∧ Config.UsernsMode cfg' = Config.UsernsMode cfg
    ∧ Config.ContainerArchitecture cfg' = Config.ContainerArchitecture cfg
    ∧ Config.GitHubInstance cfg' = Config.GitHubInstance cfg
    ∧ Config.Env cfg' = Config.Env cfg
    ∧ Config.Secrets cfg' = Config.Secrets cfg
    ∧ Config.Platforms cfg' = Config.Platforms cfg.
Proof.
  unfold GetBindsAndMounts. rewrite jobContainerName_unfold. simpl.
  destruct (String.eqb (Config.ContainerDaemonSocket cfg) "") eqn:Hsock;
    simpl; destruct (Config.BindWorkdir cfg) eqn:Hbind;
    eexists _, _, _; (split; [reflexivity|]); repeat split; simpl; done.
Qed.

(** ** Stopping the job container *)

Lemma detached_carries_only_logger (ctx : Context.t) :
  Context.logger (detached ctx) = Some (LoggerOf ctx)
  ∧ Context.cancelled (detached ctx) = false
  ∧ Context.values (detached ctx) = ∅.
Proof. done. Qed.

Lemma detached_idemp (ctx : Context.t) : detached (detached ctx) = detached ctx.
Proof. done. Qed.

(** C6, the input that refutes it: the job container is a container of the
    backend, not a host executor, and [Remove] fails; the teardown then calls
    [Remove] and [Close] and skips the removal of the volume. *)
Lemma stopJobContainer_skips_volume_after_failed_Remove :
  let c := BackendContainer "act-ci-build" in
  let rc := sampleContext "ci" "build" None (Some c) in
  isHostExecutor c = false
  ∧ Config.ReuseContainers sampleConfig = false
  ∧ calledOps (stopJobContainer (H := removeFails) sampleConfig rc Background [])
    = Some [OpRemove c; OpClose c].
Proof. done. Qed.

(** C6, amended. Without a job container, or with [ReuseContainers], the
    executor of [stopJobContainer] returns success and calls nothing.
    Otherwise it calls [Remove()]; then, when [Remove()] succeeded and the
    handle is not a host executor, the removal of the volume named as the
    job container; and in every case [Close()] last. Every call runs under
    the detached context, which carries the logger of the caller's context,
    is not cancelled and has no other binding. *)
Theorem stopJobContainer_calls `{Backend} (cfg : Config.t) (rc : RunContext.t)
    (ctx : Context.t) (calls : list Call.t) :
  ∃ (name : string) (calls' : list Call.t) (err : option error),
    jobContainerName rc = Some name
    ∧ stopJobContainer cfg rc ctx calls = Some ((calls ++ calls')%list, err)
    ∧ match RunContext.JobContainer rc with
      | None => calls' = [] ∧ err = None
      | Some c =>
          if Config.ReuseContainers cfg then calls' = [] ∧ err = None
          else
            calls' =
              (fun o => Call.mk o (detached ctx)) <$>
                teardownOps (bool_decide (outcome calls (OpRemove c) = None)) c name
      end
    ∧ Context.logger (detached ctx) = Some (LoggerOf ctx)
    ∧ Context.cancelled (detached ctx) = false
    ∧ Context.values (detached ctx) = ∅.
Proof.
  pose proof (jobContainerName_unfold rc) as Hname.
  set (name := ReplaceAll _ _ _) in Hname.
  unfold stopJobContainer. rewrite Hname.
  destruct (RunContext.JobContainer rc) as [c|]; simpl.
  2: { exists name, [], None. by rewrite app_nil_r. }
  destruct (Config.ReuseContainers cfg); simpl.
  { exists name, [], None. by rewrite app_nil_r. }
  unfold Finally, Then, If, perform, teardownOps; simpl.
  destruct (outcome calls (OpRemove c)) as [e|] eqn:Hremove; simpl.
  - eexists name, _, _. rewrite <- !app_assoc. simpl. done.
  - destruct (isHostExecutor c); simpl;
      eexists name, _, _; rewrite <- !app_assoc; simpl; done.
Qed.

(** ** The step dispatcher *)

Lemma newStepExecutor_entry `{Patterns} `{StepEngine} (step : Step.t)
    (ctx : Context.t) (rc : RunContext.t) :
  newStepExecutor step ctx rc =
    '(runStep, err) ← EvalBool (stepEntry step rc) (Step.If step);
    match err with
    | Some _ =>
        let '(rc, exprEval, err) := setupEnv step (stepEntry step rc) in
        match err with
        | Some _ => Some (rc, err)
        | None =>
            rc ← setStepSuccess (RunContext.CurrentStep rc) false
                   (RunContext.setExprEval exprEval rc);
            Some (rc, None)
        end
    | None =>
        if negb runStep then Some (stepEntry step rc, None)
        else
          let '(rc, exprEval, err) := setupEnv step (stepEntry step rc) in
          match err with
          | Some _ => Some (rc, err)
          | None =>
              let '(rc, err) := stepExecutor step (RunContext.setExprEval exprEval rc) in
              match err with
              | None => Some (rc, None)
              | Some _ =>
                  rc ← setStepSuccess (RunContext.CurrentStep rc)
                         (Step.ContinueOnError step) rc;
                  Some (rc, if Step.ContinueOnError step then None else err)
              end
          end
    end.
Proof.
  unfold newStepExecutor, stepEntry; simpl.
  destruct (EvalBool _ _) as [[runStep [e|]]|]; simpl; try done.
  - destruct (setupEnv _ _) as [[rc1 ee] [e1|]]; done.
  - destruct runStep; simpl; [|done].
    destruct (setupEnv _ _) as [[rc1 ee] [e1|]]; [done|].
    destruct (stepExecutor _ _) as [rc2 [e2|]]; [|done].
    by destruct (Step.ContinueOnError step).
Qed.

Lemma setStepSuccess_present (id : string) (b : bool) (rc : RunContext.t)
    (results : gmap string stepResult.t) (r : stepResult.t) :
  RunContext.StepResults rc = Some results →
  results !! id = Some r →
  ∃ rc', setStepSuccess id b rc = Some rc'
         ∧ stepSuccess id rc' = Some b
         ∧ RunContext.CurrentStep rc' = RunContext.CurrentStep rc.
Proof.
  intros Hres Hr. unfold setStepSuccess, getStepsContext. rewrite Hres; simpl.
  rewrite Hr; simpl. eexists. split; [done|].
  unfold stepSuccess; simpl. by rewrite lookup_insert_eq.
Qed.

(** When the evaluation of [if:] fails and [setupEnv] succeeds, the executor
    of the step marks the step failed and returns nil: the error of
    [EvalBool] is lost. *)
Lemma newStepExecutor_loses_if_error `{Patterns} `{StepEngine} (step : Step.t)
    (ctx : Context.t) (rc rc1 : RunContext.t) (runStep : bool) (e : error)
    (ee : option ExpressionEvaluator.t)
    (results : gmap string stepResult.t) (r : stepResult.t) :
  EvalBool (stepEntry step rc) (Step.If step) = Some (runStep, Some e) →
  setupEnv step (stepEntry step rc) = (rc1, ee, None) →
  RunContext.StepResults rc1 = Some results →
  results !! RunContext.CurrentStep rc1 = Some r →
  ∃ rc', newStepExecutor step ctx rc = Some (rc', None)
         ∧ stepSuccess (RunContext.CurrentStep rc1) rc' = Some false.
Proof.
  intros Heval Hsetup Hres Hr. rewrite newStepExecutor_entry, Heval; simpl.
  rewrite Hsetup.
  destruct (setStepSuccess_present (RunContext.CurrentStep rc1) false
              (RunContext.setExprEval ee rc1) results r) as (rc' & -> & Hs & _);
    [done..|].
  simpl. by exists rc'.
Qed.

(** C1, at a failing input: a step whose [if:] starts with [!]. [EvalBool]
    returns an error; with a [setupEnv] that succeeds the executor marks the
    step failed but returns nil, not that error; with a [setupEnv] that
    fails it returns the error of [setupEnv] and leaves the step marked
    successful. *)
Theorem newStepExecutor_if_error_not_returned :
  let step := Step.mk "s1" "!success()" false in
  let rc := sampleContext "ci" "build" None None in
  EvalBool (H := samplePatterns) (stepEntry step rc) (Step.If step)
    = Some (false, Some "expressions starting with ! must be wrapped in ${{ }}")
  ∧ returnedError
      (newStepExecutor (H := samplePatterns) (H0 := failingEngine) step Background rc)
    = Some None
  ∧ (finalState
       (newStepExecutor (H := samplePatterns) (H0 := failingEngine) step Background rc)
     ≫= stepSuccess "s1") = Some false
  ∧ returnedError
      (newStepExecutor (H := samplePatterns) (H0 := setupFailsEngine) step Background rc)
    = Some (Some "unable to interpolate")
  ∧ (finalState
       (newStepExecutor (H := samplePatterns) (H0 := setupFailsEngine) step Background rc)
     ≫= stepSuccess "s1") = Some true.
Proof. vm_compute. done. Qed.

Lemma pipeline_cons_success {S : Type} (e : Executor S) (rest : list (Executor S))
    (ctx : Context.t) (s s1 : S) :
  Context.cancelled ctx = false →
  e ctx s = Some (s1, None) →
  NewPipelineExecutor (e :: rest) ctx s = NewPipelineExecutor rest ctx s1.
Proof.
  intros Hctx He. destruct rest as [|e2 rest]; simpl; [done|].
  unfold Then. rewrite He; simpl. by rewrite Hctx.
Qed.

Lemma pipeline_cons_failure {S : Type} (e : Executor S) (rest : list (Executor S))
    (ctx : Context.t) (s s1 : S) (err : error) :
  e ctx s = Some (s1, Some err) →
  NewPipelineExecutor (e :: rest) ctx s = Some (s1, Some err).
Proof.
  intros He. destruct rest as [|e2 rest]; simpl; [done|].
  unfold Then. by rewrite He.
Qed.

(** C4. Take a step whose [if:] holds, whose [setupEnv] succeeds and whose
    executor fails with [e], the step engine leaving the current step and an
    entry for it in the step results. With [ContinueOnError] the executor of
    the step returns nil and the step is recorded as successful, so that a
    pipeline goes on with the steps that follow; without it the step is
    recorded as failed and [e] is returned, which ends the pipeline. *)
Theorem newStepExecutor_ContinueOnError `{Patterns} `{StepEngine} (step : Step.t)
    (ctx : Context.t) (rc rc1 rc2 : RunContext.t)
    (ee : option ExpressionEvaluator.t) (e : error)
    (results : gmap string stepResult.t) (r : stepResult.t) :
  EvalBool (stepEntry step rc) (Step.If step) = Some (true, None) →
  setupEnv step (stepEntry step rc) = (rc1, ee, None) →
  stepExecutor step (RunContext.setExprEval ee rc1) = (rc2, Some e) →
  RunContext.CurrentStep rc2 = Step.ID step →
  RunContext.StepResults rc2 = Some results →
  results !! Step.ID step = Some r →
  ∃ rc3,
    newStepExecutor step ctx rc =
      Some (rc3, if Step.ContinueOnError step then None else Some e)
    ∧ stepSuccess (Step.ID step) rc3 = Some (Step.ContinueOnError step)
    ∧ ∀ rest : list (Executor RunContext.t),
        Context.cancelled ctx = false →
        NewPipelineExecutor (newStepExecutor step :: rest) ctx rc =
          if Step.ContinueOnError step
          then NewPipelineExecutor rest ctx rc3
          else Some (rc3, Some e).
Proof.
  intros Heval Hsetup Hexec Hcur Hres Hr.
  destruct (setStepSuccess_present (Step.ID step) (Step.ContinueOnError step)
              rc2 results r) as (rc3 & Hset & Hs & _); [done..|].
  assert (Hrun : newStepExecutor step ctx rc =
            Some (rc3, if Step.ContinueOnError step then None else Some e)).
  { rewrite newStepExecutor_entry, Heval; simpl. rewrite Hsetup, Hexec, Hcur.
    by rewrite Hset. }
  exists rc3. split; [done|]. split; [done|].
  intros rest Hctx. destruct (Step.ContinueOnError step).
  - by apply pipeline_cons_success.
  - by apply pipeline_cons_failure.
Qed.

(** A step with [ContinueOnError] and an empty [if:], run by an engine whose
    step fails. *)
Lemma newStepExecutor_ContinueOnError_witness :
  let step := Step.mk "s1" "" true in
  let rc := sampleContext "ci" "build" None None in
  ∃ rc3,
    newStepExecutor (H := samplePatterns) (H0 := failingEngine) step Background rc =
      Some (rc3, None)
    ∧ stepSuccess "s1" rc3 = Some true
    ∧ ∀ rest : list (Executor RunContext.t),
        Context.cancelled Background = false →
        NewPipelineExecutor
          (newStepExecutor (H := samplePatterns) (H0 := failingEngine) step :: rest)
          Background rc
        = NewPipelineExecutor rest Background rc3.
Proof.
  intros step rc.
  apply (newStepExecutor_ContinueOnError (H := samplePatterns) (H0 := failingEngine)
           step Background rc (stepEntry step rc)
           (putStepResult "s1" (stepResult.mk true (Some (<["out" := "1"]> ∅)))
              (RunContext.setExprEval (Some sampleEvaluator) (stepEntry step rc)))
           (Some sampleEvaluator) "exit with `FAILURE`: 1"
           (<["s1" := stepResult.mk true (Some (<["out" := "1"]> ∅))]>
              (<["s1" := stepResult.mk true (Some ∅)]> ∅))
           (stepResult.mk true (Some (<["out" := "1"]> ∅))));
    reflexivity.
Defined.

(** ** The quoting rule of [EvalBool] *)

Section QuotingRule.
Context `{Patterns}.

Lemma index_of_nat {A : Type} (l : list A) (i : nat) :
  index l (Z.of_nat i) = l !! i.
Proof.
  unfold index. destruct (Z.ltb_spec (Z.of_nat i) 0); [lia|].
  by rewrite Nat2Z.id.
Qed.

(** In range, [previousOrNextPartIsAnOperator] returns, and it returns true
    exactly when a neighbour is an operator. *)
Lemma previousOrNextPartIsAnOperator_spec (i : nat) (parts : list string) :
  (i < length parts)%nat →
  ∃ b : bool,
    previousOrNextPartIsAnOperator (Z.of_nat i) parts = Some b
    ∧ (b = true ↔ neighbourIsOperator i parts).
Proof.
  intros Hi. unfold previousOrNextPartIsAnOperator, neighbourIsOperator.
  assert (Hprev : ∃ b0 : bool,
    (if (Z.of_nat i >? 0)%Z then operatorPattern <$> index parts (Z.of_nat i - 1)
     else Some false) = Some b0
    ∧ (b0 = true ↔ ∃ p, (0 < i)%nat ∧ parts !! (i - 1)%nat = Some p
                        ∧ operatorPattern p = true)).
  { destruct (Z.gtb_spec (Z.of_nat i) 0) as [Hpos|Hzero].
    - replace (Z.of_nat i - 1)%Z with (Z.of_nat (i - 1)) by lia.
      rewrite index_of_nat.
      destruct (lookup_lt_is_Some_2 parts (i - 1)%nat) as [p Hp]; [lia|].
      rewrite Hp; simpl. eexists. split; [done|]. split.
      + intros Hop. exists p. split; [lia|done].
      + intros (p' & _ & Hp' & Hop). congruence.
    - exists false. split; [done|]. split; [done|].
      intros (p & Hpos & _). lia. }
  destruct Hprev as (b0 & -> & Hb0); simpl.
  replace (Z.of_nat i + 1)%Z with (Z.of_nat (i + 1)) by lia.
  destruct (Z.ltb_spec (Z.of_nat (i + 1)) (Z.of_nat (length parts))) as [Hnext|Hlast].
  - destruct (lookup_lt_is_Some_2 parts (i + 1)%nat) as [q Hq]; [lia|].
    destruct b0.
    + exists true. split; [done|]. split; [|done]. intros _. left. by apply Hb0.
    + rewrite index_of_nat, Hq; simpl. eexists. split; [done|]. split.
      * intros Hop. right. by exists q.
      * intros [Hp|(q' & Hq' & Hop)]; [by apply Hb0 in Hp | congruence].
  - exists b0. split; [done|]. rewrite Hb0. split; [by left|].
    intros [Hp|(q & Hq & _)]; [done|].
    apply lookup_lt_Some in Hq. lia.
Qed.

(** What the loop appends for an interpolated token is the interpolation,
    quoted exactly under the quoting rule. *)
Lemma evaluatePart_interpolated (ev : ExpressionEvaluator.t) (parts : list string)
    (i : nat) (part : string) :
  (i < length parts)%nat →
  operatorPattern part = false →
  let interpolated := fst (ExpressionEvaluator.InterpolateWithStringCheck ev part) in
  let isString := snd (ExpressionEvaluator.InterpolateWithStringCheck ev part) in
  ∃ b : bool,
    evaluatePart (Some ev) parts (Z.of_nat i) part =
      Some (if b then quoted interpolated else interpolated)
    ∧ (b = true ↔ quotingRule i parts part interpolated isString).
Proof.
  intros Hi Hop. unfold evaluatePart, quotingRule. rewrite Hop; simpl.
  destruct (ExpressionEvaluator.InterpolateWithStringCheck ev part)
    as [interpolated isString]; simpl.
  destruct (previousOrNextPartIsAnOperator_spec i parts Hi) as (bn & Hbn & Hn).
  destruct (expressionPattern part); simpl.
  2: { exists false. split; [done|]. split; [done|]. by intros [? _]. }
  destruct (Contains part "!"); simpl.
  { exists false. split; [done|]. split; [done|]. by intros (_ & ? & _). }
  destruct (String.eqb_spec interpolated "false") as [->|Hne]; simpl.
  2: { exists false. split; [done|]. split; [done|]. by intros (_ & _ & ? & _). }
  destruct isString; simpl.
  { exists true. split; [done|]. split; [|done]. intros _. repeat split. by left. }
  rewrite Hbn; simpl. exists bn. split; [done|]. rewrite Hn. split.
  - intros Hneigh. repeat split. by right.
  - by intros (_ & _ & _ & [?|?]).
Qed.

Lemma evaluatePart_operator (ee : option ExpressionEvaluator.t) (parts : list string)
    (i : Z) (part : string) :
  operatorPattern part = true →
  evaluatePart ee parts i part = Some part.
Proof. intros Hop. unfold evaluatePart. by rewrite Hop. Qed.

Lemma evaluatePart_total (ev : ExpressionEvaluator.t) (parts : list string)
    (i : nat) (part : string) :
  (i < length parts)%nat →
  is_Some (evaluatePart (Some ev) parts (Z.of_nat i) part).
Proof.
  intros Hi. destruct (operatorPattern part) eqn:Hop.
  - rewrite evaluatePart_operator by done. by eexists.
  - destruct (evaluatePart_interpolated ev parts i part Hi Hop) as (b & -> & _).
    by eexists.
Qed.

(** The loop returns one string for each token: the one of [evaluatePart]. *)
Lemma evaluatePartsFrom_lookup (ev : ExpressionEvaluator.t) (parts : list string)
    (rest : list string) (i : nat) (acc : list string) :
  (i + length rest = length parts)%nat →
  length acc = i →
  ∃ evaluated,
    evaluatePartsFrom (Some ev) parts (Z.of_nat i) rest acc = Some evaluated
    ∧ length evaluated = length parts
    ∧ (∀ j, (j < i)%nat → evaluated !! j = acc !! j)
    ∧ (∀ j part, rest !! j = Some part →
         Some (evaluated !! (i + j)%nat) =
           Some <$> evaluatePart (Some ev) parts (Z.of_nat (i + j)) part).
Proof.
  revert i acc. induction rest as [|part rest IH]; intros i acc Hlen Hacc; simpl.
  - exists acc. split; [done|]. split; [simpl in Hlen; lia|]. split; [done|].
    intros j part Hj. by rewrite lookup_nil in Hj.
  - simpl in Hlen.
    destruct (evaluatePart_total ev parts i part) as [s Hs]; [lia|].
    rewrite Hs; simpl.
    replace (Z.of_nat i + 1)%Z with (Z.of_nat (S i)) by lia.
    destruct (IH (S i) (acc ++ [s])%list) as (evaluated & Hev & Hl & Hpre & Hrest).
    { lia. } { rewrite length_app; simpl; lia. }
    exists evaluated. split; [done|]. split; [done|]. split.
    + intros j Hj. rewrite Hpre by lia. by rewrite lookup_app_l by lia.
    + intros [|j] part' Hj; simpl in Hj.
      * injection Hj as <-. rewrite Nat.add_0_r, Hs; simpl.
        rewrite Hpre by lia. rewrite lookup_app_r by lia.
        by rewrite Hacc, Nat.sub_diag.
      * replace (i + S j)%nat with (S i + j)%nat by lia. by apply Hrest.
Qed.

Lemma evaluateParts_lookup (ev : ExpressionEvaluator.t) (parts : list string) :
  ∃ evaluated,
    evaluateParts (Some ev) parts = Some evaluated
    ∧ length evaluated = length parts
    ∧ (∀ i part, parts !! i = Some part →
         Some (evaluated !! i) =
           Some <$> evaluatePart (Some ev) parts (Z.of_nat i) part).
Proof.
  destruct (evaluatePartsFrom_lookup ev parts parts 0 []) as (evaluated & Hev & Hl & _ & Hrest);
    [done..|].
  exists evaluated. split; [done|]. split; [done|]. intros i part Hi.
  by apply (Hrest i part).
Qed.

Lemma quoted_ne (s : string) : quoted s ≠ s.
Proof.
  intros Heq. apply (f_equal String.length) in Heq. unfold quoted in Heq.
  simpl in Heq. rewrite append_length in Heq. simpl in Heq. lia.
Qed.

(** The quoting rule for the tokens of any list: every token is evaluated;
    an operator enters as it is, every other token as its interpolation,
    between single quotes exactly under the quoting rule. *)
Lemma evaluateParts_quoting_rule (ev : ExpressionEvaluator.t) (parts : list string)
    (i : nat) (part : string) :
  parts !! i = Some part →
  let interpolated := fst (ExpressionEvaluator.InterpolateWithStringCheck ev part) in
  let isString := snd (ExpressionEvaluator.InterpolateWithStringCheck ev part) in
  ∃ evaluated,
    evaluateParts (Some ev) parts = Some evaluated
    ∧ if operatorPattern part then evaluated !! i = Some part
      else
        (evaluated !! i = Some (quoted interpolated)
         ↔ quotingRule i parts part interpolated isString)
        ∧ (evaluated !! i = Some interpolated
           ↔ ¬ quotingRule i parts part interpolated isString).
Proof.
  intros Hi interpolated isString.
  destruct (evaluateParts_lookup ev parts) as (evaluated & Hev & _ & Hlook).
  exists evaluated. split; [done|].
  specialize (Hlook i part Hi).
  destruct (operatorPattern part) eqn:Hop.
  { rewrite evaluatePart_operator in Hlook by done. simpl in Hlook.
    by injection Hlook. }
  destruct (evaluatePart_interpolated ev parts i part) as (b & Hb & Hrule);
    [by eapply lookup_lt_Some | done |].
  rewrite Hb in Hlook; simpl in Hlook. injection Hlook as Hlook.
  fold interpolated isString in Hb, Hrule |- *. rewrite Hlook, <- Hrule.
  destruct b; split; split; try done.
  - intros [=Heq]. by apply quoted_ne in Heq.
  - intros [=Heq]. symmetry in Heq. by apply quoted_ne in Heq.
Qed.

(** What [EvalBool] does with the evaluated tokens: for a non-empty
    expression without a leading [!] it evaluates [Boolean(...)] of their
    join and compares the result with [true]. *)
Lemma EvalBool_evaluates_joined (rc : RunContext.t) (ev : ExpressionEvaluator.t)
    (expr : string) :
  RunContext.ExprEval rc = Some ev →
  HasPrefix (TrimSpace expr) "!" = false →
  expr ≠ "" →
  ∃ evaluated,
    evaluateParts (Some ev) (splitPattern expr) = Some evaluated
    ∧ EvalBool rc expr =
        Some (let '(v, _, err) :=
                ExpressionEvaluator.Evaluate ev
                  ("Boolean(" +:+ Join evaluated " " +:+ ")") in
              match err with
              | Some e => (false, Some e)
              | None => (String.eqb v "true", None)
              end).
Proof.
  intros Hev Hbang Hexpr. unfold EvalBool. rewrite Hbang, Hev.
  destruct (String.eqb_spec expr "") as [|_]; [done|]; simpl.
  destruct (evaluateParts_lookup ev (splitPattern expr)) as (evaluated & -> & _).
  exists evaluated. split; [done|]. simpl.
  by destruct (ExpressionEvaluator.Evaluate ev _) as [[v raw] [e|]].
Qed.

(** C3. [EvalBool] with an evaluator bound, for a non-empty expression that
    does not start with [!]: the tokens are those of [splitPattern expr],
    each of them is evaluated to one string, and the result of [EvalBool] is
    the evaluation of [Boolean(...)] around these strings joined by spaces.
    A token that matches the operator pattern enters as it is, without
    interpolation. For every other token the string that enters is the
    interpolation between single quotes if and only if the token is an
    expression block, holds no [!], interpolates to [false], and was typed
    as a string or has an operator right before or right after it;
    otherwise it is the interpolation as it is. *)
Theorem EvalBool_quoting_rule (rc : RunContext.t) (ev : ExpressionEvaluator.t)
    (expr : string) :
  RunContext.ExprEval rc = Some ev →
  HasPrefix (TrimSpace expr) "!" = false →
  expr ≠ "" →
  let parts := splitPattern expr in
  ∃ evaluated,
    length evaluated = length parts
    ∧ EvalBool rc expr =
        Some (let '(v, _, err) :=
                ExpressionEvaluator.Evaluate ev
                  ("Boolean(" +:+ Join evaluated " " +:+ ")") in
              match err with
              | Some e => (false, Some e)
              | None => (String.eqb v "true", None)
              end)
    ∧ ∀ (i : nat) (part : string),
        parts !! i = Some part →
        let interpolated :=
          fst (ExpressionEvaluator.InterpolateWithStringCheck ev part) in
        let isString :=
          snd (ExpressionEvaluator.InterpolateWithStringCheck ev part) in
        if operatorPattern part then evaluated !! i = Some part
        else
          (evaluated !! i = Some (quoted interpolated)
           ↔ quotingRule i parts part interpolated isString)
          ∧ (evaluated !! i = Some interpolated
             ↔ ¬ quotingRule i parts part interpolated isString).
Proof.
  intros Hev Hbang Hexpr parts.
  destruct (EvalBool_evaluates_joined rc ev expr Hev Hbang Hexpr)
    as (evaluated & Hparts & Hbool).
  destruct (evaluateParts_lookup ev parts) as (evaluated' & Hparts' & Hlen & _).
  fold parts in Hparts. rewrite Hparts in Hparts'. injection Hparts' as <-.
  exists evaluated. split; [done|]. split; [done|].
  intros i part Hi.
  destruct (evaluateParts_quoting_rule ev parts i part Hi)
    as (evaluated' & Hparts' & Hrule).
  rewrite Hparts in Hparts'. injection Hparts' as <-. exact Hrule.
Qed.

End QuotingRule.

(** With [env.FLAG] holding the untyped text [false]: next to an operator the
    block is quoted, alone it is not, and negated it is not. *)
Example evaluateParts_flag :
  evaluateParts (H := samplePatterns) (Some flagEvaluator)
      ["${{env.FLAG}}"; "=="; "'false'"]
    = Some ["'false'"; "=="; "'false'"]
  ∧ evaluateParts (H := samplePatterns) (Some flagEvaluator) ["${{env.FLAG}}"]
    = Some ["false"]
  ∧ evaluateParts (H := samplePatterns) (Some flagEvaluator)
      ["${{!env.FLAG}}"; "&&"; "true"]
    = Some ["${{!env.FLAG}}"; "&&"; "true"]
  ∧ evaluateParts (H := samplePatterns) None ["=="] = Some ["=="]
  ∧ evaluateParts (H := samplePatterns) None ["true"] = None.
Proof. vm_compute. done. Qed.

(** The expression [${{env.FLAG}} == 'false'] with [env.FLAG] holding the
    untyped text [false]: its three tokens are evaluated, and the block,
    next to an operator, is quoted. *)
Lemma EvalBool_quoting_rule_witness :
  let rc := RunContext.setExprEval (Some flagEvaluator)
              (sampleContext "ci" "build" None None) in
  let expr := "${{env.FLAG}} == 'false'" in
  let parts := ["${{env.FLAG}}"; "=="; "'false'"] in
  splitPattern (Patterns := samplePatterns) expr = parts
  ∧ ∃ evaluated,
      length evaluated = 3%nat
      ∧ EvalBool (H := samplePatterns) rc expr =
          Some (let '(v, _, err) :=
                  ExpressionEvaluator.Evaluate flagEvaluator
                    ("Boolean(" +:+ Join evaluated " " +:+ ")") in
                match err with
                | Some e => (false, Some e)
                | None => (String.eqb v "true", None)
                end)
      ∧ (evaluated !! 0%nat = Some (quoted "false")
         ↔ quotingRule (H := samplePatterns) 0 parts "${{env.FLAG}}" "false" false)
      ∧ evaluated !! 1%nat = Some "==".
Proof.
  intros rc expr parts. split; [reflexivity|].
  destruct (EvalBool_quoting_rule (H := samplePatterns) rc flagEvaluator expr)
    as (evaluated & Hlen & Hbool & Hrule); [reflexivity | reflexivity | discriminate |].
  exists evaluated. split; [exact Hlen|]. split; [exact Hbool|]. split.
  - exact (proj1 (Hrule 0%nat "${{env.FLAG}}" eq_refl)).
  - exact (Hrule 1%nat "==" eq_refl).
Defined.

(** ** The environment of a step *)

Lemma isOverlay_id : isOverlay (fun m => m).
Proof. exists ∅. intros m. by rewrite (left_id_L ∅ (∪)). Qed.

Lemma isOverlay_insert (k v : string) (f : gmap string string -> gmap string string) :
  isOverlay f → isOverlay (fun m => <[k := v]> (f m)).
Proof.
  intros [o Ho]. exists (<[k := v]> o). intros m.
  by rewrite Ho, insert_union_l.
Qed.

Lemma isOverlay_if (b : bool) (f g : gmap string string -> gmap string string) :
  isOverlay f → isOverlay g → isOverlay (fun m => if b then f m else g m).
Proof. by destruct b. Qed.

Lemma isOverlayOrPanic_compose (F : gmap string string -> option (gmap string string))
    (g : gmap string string -> gmap string string) :
  isOverlayOrPanic F → isOverlay g → isOverlayOrPanic (fun m => F (g m)).
Proof.
  intros [HF|[o HF]] [o' Hg].
  - left. intros m. apply HF.
  - right. exists (o ∪ o'). intros m. by rewrite HF, Hg, (assoc_L (∪)).
Qed.

Lemma isOverlayOrPanic_idemp (F : gmap string string -> option (gmap string string))
    (m : gmap string string) :
  isOverlayOrPanic F → F m ≫= F = F m.
Proof.
  intros [HF|[o HF]].
  - by rewrite HF.
  - rewrite HF; simpl. rewrite HF.
    by rewrite (assoc_L (∪)), (idemp_L (∪)).
Qed.

Lemma githubEnvAssignments_overlay (cfg : Config.t) (rc : RunContext.t)
    (github : githubContext.t) :
  isOverlay (githubEnvAssignments cfg rc github).
Proof.
  unfold githubEnvAssignments. cbv zeta.
  repeat first [ apply isOverlay_id | apply isOverlay_if | apply isOverlay_insert ].
Qed.

Lemma imageOSLoop_overlay (ee : option ExpressionEvaluator.t) (labels : list string) :
  isOverlayOrPanic (imageOSLoop ee labels).
Proof.
  induction labels as [|runnerLabel rest IH]; simpl.
  - right. exists ∅. intros m. by rewrite (left_id_L ∅ (∪)).
  - destruct ee as [ev|]; simpl; [|by left].
    apply (isOverlayOrPanic_compose (imageOSLoop (Some ev) rest)); [done|].
    apply isOverlay_if; [apply isOverlay_insert|]; apply isOverlay_id.
Qed.

Lemma withGithubEnv_overlay `{Host} (cfg : Config.t) (rc : RunContext.t) :
  isOverlayOrPanic (withGithubEnv cfg rc).
Proof.
  unfold withGithubEnv. destruct (getGithubContext cfg rc) as [github|]; simpl;
    [|by left].
  destruct (Job.RunsOn _) as [labels|].
  - apply (isOverlayOrPanic_compose (imageOSLoop (RunContext.ExprEval rc) labels)).
    + apply imageOSLoop_overlay.
    + apply githubEnvAssignments_overlay.
  - destruct (githubEnvAssignments_overlay cfg rc github) as [o Ho].
    right. exists o. intros m. by rewrite Ho.
Qed.

(** C9. For a fixed run context, [Config] and host, [withGithubEnv] applied
    to the map it returned returns that map again; when the first call
    panics there is no second one. *)
Theorem withGithubEnv_idempotent `{Host} (cfg : Config.t) (rc : RunContext.t)
    (env : gmap string string) :
  withGithubEnv cfg rc env ≫= withGithubEnv cfg rc = withGithubEnv cfg rc env.
Proof. apply isOverlayOrPanic_idemp, withGithubEnv_overlay. Qed.

Lemma prefix_single (d c : ascii) (r : string) :
  String.prefix (String d "") (String c r) = Ascii.eqb c d.
Proof.
  cbn [String.prefix]. destruct (ascii_dec d c) as [<-|Hne].
  - rewrite Ascii.eqb_refl. by destruct r.
  - symmetry. apply Ascii.eqb_neq. congruence.
Qed.

Lemma prefix_hyphen (c : ascii) (r : string) :
  String.prefix "-" (String c r) = isHyphen c.
Proof. apply prefix_single. Qed.

Lemma prefix_dot (c : ascii) (r : string) :
  String.prefix "." (String c r) = Ascii.eqb c ".".
Proof. apply prefix_single. Qed.

Lemma ReplaceFrom_none_left (old new s : string) : ReplaceFrom old new 0 0 s = s.
Proof. by destruct s. Qed.

(** [strings.Replace(s, "-", "", 1)] drops the first hyphen of [s]. *)
Lemma Replace_first_hyphen (s : string) : Replace s "-" "" 1 = dropFirstHyphen s.
Proof.
  unfold Replace. induction s as [|c r IH]; [done|].
  cbn [ReplaceFrom dropFirstHyphen]. change (1 =? 0)%Z with false. cbv iota.
  rewrite prefix_hyphen. destruct (isHyphen c).
  - change (String.length "-" - 1)%nat with 0%nat. change (1 - 1)%Z with 0%Z.
    by rewrite ReplaceFrom_none_left.
  - by rewrite IH.
Qed.

(** [strings.SplitN(s, ".", 2)[0]] is [s] up to its first dot. *)
Lemma SplitN2_dot_head (s : string) :
  default "" (head (SplitN2 s ".")) = upToFirstDot s.
Proof.
  unfold SplitN2.
  assert (Hidx : match Index s "." with
                 | Some i => take i s = upToFirstDot s
                 | None => s = upToFirstDot s
                 end).
  { induction s as [|c r IH]; [done|].
    cbn [Index upToFirstDot]. rewrite prefix_dot.
    destruct (Ascii.eqb c "."); [done|].
    destruct (Index r ".") as [i|]; simpl; by f_equal. }
  by destruct (Index s ".").
Qed.

Lemma imageOS_spec (p : string) : imageOS p = imageOSOfLabel p.
Proof.
  unfold imageOS, imageOSOfLabel.
  destruct (String.eqb_spec p "ubuntu-latest"); case_decide; try done.
  by rewrite Replace_first_hyphen, SplitN2_dot_head.
Qed.

Lemma githubEnvAssignments_ImageOS (cfg : Config.t) (rc : RunContext.t)
    (github : githubContext.t) (env : gmap string string) :
  githubEnvAssignments cfg rc github env !! "ImageOS" = env !! "ImageOS".
Proof.
  unfold githubEnvAssignments. cbv zeta.
  destruct (negb (String.eqb (githubContext.ActionPath github) ""));
    destruct (negb (String.eqb (Config.GitHubInstance cfg) "github.com"));
    by rewrite !lookup_insert_ne.
Qed.

Lemma imageOSLoop_ImageOS (ev : ExpressionEvaluator.t) (labels : list string)
    (env : gmap string string) :
  ∃ env', imageOSLoop (Some ev) labels env = Some env'
          ∧ env' !! "ImageOS" =
              match last (nonEmptyLabels ev labels) with
              | Some p => Some (imageOSOfLabel p)
              | None => env !! "ImageOS"
              end.
Proof.
  revert env. induction labels as [|runnerLabel rest IH]; intros env; simpl.
  - by exists env.
  - set (p := ExpressionEvaluator.Interpolate ev runnerLabel).
    destruct (IH (if negb (String.eqb p "")
                  then <["ImageOS" := imageOS p]> env else env))
      as (env' & Hloop & Hlook).
    exists env'. split; [done|]. rewrite Hlook.
    unfold nonEmptyLabels. rewrite fmap_cons. fold p.
    destruct (String.eqb_spec p "") as [Hp|Hp]; simpl.
    + rewrite filter_cons_False by (by intros ?). done.
    + rewrite filter_cons_True by done.
      fold (nonEmptyLabels ev rest). rewrite last_cons.
      destruct (last (nonEmptyLabels ev rest)); [done|].
      by rewrite lookup_insert_eq, imageOS_spec.
Qed.

(** C7, the input that refutes it: for the labels [ubuntu-latest] and
    [self-hosted], interpolated to themselves, ["ImageOS"] is the value of
    the second label, not the ["ubuntu20"] of the first non-empty one. *)
Lemma withGithubEnv_ImageOS_not_first :
  let rc := sampleContext "ci" "build" (Some ["ubuntu-latest"; "self-hosted"]) None in
  head (nonEmptyLabels sampleEvaluator ["ubuntu-latest"; "self-hosted"])
    = Some "ubuntu-latest"
  ∧ (withGithubEnv (H := sampleHost) sampleConfig rc ∅ ≫= (.!! "ImageOS"))
    = Some "selfhosted"
  ∧ imageOSOfLabel "ubuntu-latest" = "ubuntu20".
Proof. vm_compute. done. Qed.

(** C7, amended. When the github context can be built and an evaluator is
    bound, [withGithubEnv] returns, and ["ImageOS"] in its result is derived
    from the last non-empty interpolated label of [runs-on]: ["ubuntu20"]
    for ["ubuntu-latest"], otherwise the label without its first hyphen, up
    to its first dot. Without a non-empty label ["ImageOS"] is left as it
    was. *)
Theorem withGithubEnv_ImageOS `{Host} (cfg : Config.t) (rc : RunContext.t)
    (env : gmap string string) (github : githubContext.t)
    (ev : ExpressionEvaluator.t) (labels : list string) :
  getGithubContext cfg rc = Some github →
  RunContext.ExprEval rc = Some ev →
  Job.RunsOn (Run.Job (RunContext.Run rc)) = Some labels →
  ∃ env',
    withGithubEnv cfg rc env = Some env'
    ∧ env' !! "ImageOS" =
        match last (nonEmptyLabels ev labels) with
        | Some label => Some (imageOSOfLabel label)
        | None => env !! "ImageOS"
        end.
Proof.
  intros Hgithub Hev Hlabels. unfold withGithubEnv.
  rewrite Hgithub, Hlabels, Hev; simpl.
  destruct (imageOSLoop_ImageOS ev labels (githubEnvAssignments cfg rc github env))
    as (env' & Hloop & Hlook).
  exists env'. split; [done|].
  by rewrite Hlook, githubEnvAssignments_ImageOS.
Qed.

(** The labels [ubuntu-latest] and [self-hosted] on a host without a git
    repository. *)
Lemma withGithubEnv_ImageOS_witness :
  let rc := sampleContext "ci" "build" (Some ["ubuntu-latest"; "self-hosted"]) None in
  ∃ env',
    withGithubEnv (H := sampleHost) sampleConfig rc ∅ = Some env'
    ∧ env' !! "ImageOS" =
        match last (nonEmptyLabels sampleEvaluator ["ubuntu-latest"; "self-hosted"]) with
        | Some label => Some (imageOSOfLabel label)
        | None => (∅ : gmap string string) !! "ImageOS"
        end.
Proof.
  intros rc.
  destruct (getGithubContext (H := sampleHost) sampleConfig rc) as [github|] eqn:Hgithub;
    [|by vm_compute in Hgithub].
  by apply (withGithubEnv_ImageOS (H := sampleHost) sampleConfig rc ∅ github
              sampleEvaluator ["ubuntu-latest"; "self-hosted"]).
Defined.

(** ** Container names *)

Lemma string_pair_ind (P : string → Prop) :
  P "" →
  (∀ c, P (String c "")) →
  (∀ c d r, P r → P (String d r) → P (String c (String d r))) →
  ∀ s, P s.
Proof.
  intros Hnil Hone Hstep s.
  assert (Hboth : P s ∧ ∀ c, P (String c s)); [|by destruct Hboth].
  induction s as [|d r [IHr IHdr]]; [by split|].
  split; [apply IHdr|]. intros c. apply Hstep; [done | apply IHdr].
Qed.

Lemma allChars_app (p : ascii → bool) (a b : string) :
  allChars p (a +:+ b) = allChars p a && allChars p b.
Proof. induction a as [|c a IH]; simpl; [done|]. by rewrite IH, andb_assoc. Qed.

Lemma isHyphen_eq (c : ascii) : isHyphen c = true → c = "-"%char.
Proof. apply Ascii.eqb_eq. Qed.

Lemma isDigit_isAlnum (c : ascii) : isDigit c = true → isAlnum c = true.
Proof. unfold isAlnum. intros ->. by rewrite orb_true_r. Qed.

Lemma isDigit_not_hyphen (c : ascii) : isDigit c = true → isHyphen c = false.
Proof.
  intros Hd. destruct (isHyphen c) eqn:Hh; [|done].
  apply isHyphen_eq in Hh as ->. by vm_compute in Hd.
Qed.

Lemma isAlnum_ascii (c : ascii) : isAlnum c = true → (byteVal c <? 128)%nat = true.
Proof.
  unfold isAlnum, isLower, isUpper, isDigit, inRange. intros Hc.
  apply Nat.ltb_lt. repeat (apply orb_prop in Hc as [Hc|Hc]);
    apply andb_prop in Hc as [_ Hc%Nat.leb_le]; lia.
Qed.

(** *** The replacement of the characters that a name cannot hold *)

Lemma replaceNonAlnumFrom_chars (skip : nat) (s : string) :
  allChars isNameChar (replaceNonAlnumFrom skip s) = true.
Proof.
  revert skip. induction s as [|c r IH]; intros skip; [done|].
  cbn [replaceNonAlnumFrom]. destruct skip as [|k]; [|apply IH].
  destruct (isAlnum c) eqn:Hc; cbn [allChars]; rewrite IH.
  - unfold isNameChar. by rewrite Hc.
  - done.
Qed.

Lemma replaceNonAlnumFrom_alnum (s : string) :
  allChars isAlnum s = true → replaceNonAlnumFrom 0 s = s.
Proof.
  induction s as [|c r IH]; [done|]. cbn [allChars replaceNonAlnumFrom].
  intros [Hc Hr]%andb_prop. rewrite Hc. by rewrite IH.
Qed.

(** A rune that starts a string extends over non-ASCII bytes only. *)
Lemma runeWidth_leadingNonAscii (c : ascii) (r : string) :
  (runeWidth (String c r) - 1 ≤ leadingNonAscii r)%nat.
Proof.
  unfold runeWidth, inRange.
  repeat match goal with
  | |- context [if ?b then _ else _] => destruct b eqn:?; try (simpl; lia)
  | |- context [match ?s with EmptyString => _ | String _ _ => _ end] =>
      destruct s; try (simpl; lia)
  end;
  repeat match goal with
  | H : (_ && _) = true |- _ => apply andb_prop in H as [? ?]
  | H : (_ <=? _)%nat = true |- _ => apply Nat.leb_le in H
  end;
  cbn [leadingNonAscii];
  repeat match goal with
  | |- context [(?a <? ?b)%nat] => destruct (Nat.ltb_spec a b); try lia
  end.
Qed.

(** What follows a string does not change the rune that starts it, when what
    follows starts with an ASCII byte. *)
Lemma runeWidth_app (c : ascii) (r t : string) :
  startsAscii t = true →
  runeWidth (String c (r +:+ t)) = runeWidth (String c r).
Proof.
  intros Ht. unfold runeWidth.
  assert (Hlo : ∀ lo hi d t', t = String d t' → (128 ≤ lo)%nat → inRange lo hi d = false).
  { intros lo hi d t' -> Hlo. simpl in Ht. apply Nat.ltb_lt in Ht.
    unfold inRange. apply andb_false_intro1, Nat.leb_gt. lia. }
  destruct r as [|c1 [|c2 [|c3 r]]]; simpl; destruct t as [|d t']; try done;
    repeat match goal with
    | |- context [if ?b then _ else _] =>
        match b with
        | context [inRange] => fail 1
        | _ => destruct b eqn:?
        end
    end; try done;
    rewrite ?(Hlo _ _ d t' eq_refl) by lia; rewrite ?andb_false_r; try done.
  all: destruct t' as [|d2 t'']; try done.
  all: try destruct t'' as [|d3 t''']; try done.
  all: by destruct (inRange _ _ c1).
Qed.

Lemma leadingNonAscii_app (s t : string) :
  (leadingNonAscii s ≤ leadingNonAscii (s +:+ t))%nat.
Proof.
  induction s as [|c r IH]; simpl; [lia|].
  destruct (byteVal c <? 128)%nat; lia.
Qed.

(** The replacement works rune by rune, and no rune reaches into a string
    that starts with an ASCII byte. *)
Lemma replaceNonAlnumFrom_app (skip : nat) (s t : string) :
  startsAscii t = true →
  (skip ≤ leadingNonAscii s)%nat →
  replaceNonAlnumFrom skip (s +:+ t) =
    replaceNonAlnumFrom skip s +:+ replaceNonAlnumFrom 0 t.
Proof.
  intros Ht. revert skip. induction s as [|c r IH]; intros skip Hskip.
  - simpl in Hskip. by replace skip with 0%nat by lia.
  - change (String c r +:+ t) with (String c (r +:+ t)).
    cbn [replaceNonAlnumFrom]. destruct skip as [|k].
    + destruct (isAlnum c).
      * rewrite IH by lia. done.
      * rewrite runeWidth_app by done.
        rewrite IH by apply runeWidth_leadingNonAscii. done.
    + apply IH. simpl in Hskip. destruct (byteVal c <? 128)%nat; lia.
Qed.

Lemma replaceNonAlnum_dash_digits (x digits : string) :
  allChars isDigit digits = true →
  replaceNonAlnum (x +:+ "-" +:+ digits) = replaceNonAlnum x +:+ "-" +:+ digits.
Proof.
  intros Hd. unfold replaceNonAlnum.
  rewrite replaceNonAlnumFrom_app; [|done|lia]. f_equal.
  change ("-" +:+ digits) with (String "-" digits).
  cbn [replaceNonAlnumFrom]. change (isAlnum "-") with false. cbv iota.
  change (runeWidth (String "-" digits) - 1)%nat with 0%nat.
  rewrite replaceNonAlnumFrom_alnum; [done|].
  clear x. induction digits as [|c r IH]; [done|]. simpl in *.
  apply andb_prop in Hd as [Hc Hr]. by rewrite (isDigit_isAlnum c Hc), IH.
Qed.

(** *** Trimming hyphens *)

Lemma lastChar_cons (c : ascii) (r : string) :
  lastChar (String c r) = match lastChar r with Some d => Some d | None => Some c end.
Proof. done. Qed.

Lemma lastChar_None (s : string) : lastChar s = None → s = "".
Proof. destruct s as [|c r]; [done|]. simpl. by destruct (lastChar r). Qed.

Lemma lastChar_app (a b : string) :
  b ≠ "" → lastChar (a +:+ b) = lastChar b.
Proof.
  intros Hb. induction a as [|c a IH]; [done|].
  change (String c a +:+ b) with (String c (a +:+ b)). rewrite lastChar_cons, IH.
  destruct (lastChar b) eqn:Hl; [done|]. by apply lastChar_None in Hl.
Qed.

Lemma TrimRight_lastChar (s cutset : string) (c : ascii) :
  lastChar (TrimRight s cutset) = Some c → inCutset cutset c = false.
Proof.
  revert c. induction s as [|a r IH]; intros c; [done|]. cbn [TrimRight].
  destruct (isEmpty (TrimRight r cutset) && inCutset cutset a) eqn:Hcut; [done|].
  rewrite lastChar_cons. destruct (lastChar (TrimRight r cutset)) as [d|] eqn:Hlast.
  - intros [= <-]. by apply IH.
  - intros [= <-]. apply lastChar_None in Hlast. by rewrite Hlast in Hcut.
Qed.

Lemma TrimRight_id (s cutset : string) (c : ascii) :
  lastChar s = Some c → inCutset cutset c = false → TrimRight s cutset = s.
Proof.
  induction s as [|a r IH]; [done|]. rewrite lastChar_cons. cbn [TrimRight].
  destruct (lastChar r) as [d|] eqn:Hlast.
  - intros [= ->] Hc. rewrite IH by done.
    destruct r; [done|]. done.
  - intros [= ->] Hc. apply lastChar_None in Hlast as ->. simpl. by rewrite Hc.
Qed.

Lemma TrimRight_chars (p : ascii → bool) (s cutset : string) :
  allChars p s = true → allChars p (TrimRight s cutset) = true.
Proof.
  induction s as [|a r IH]; [done|]. cbn [TrimRight allChars].
  intros [Ha Hr]%andb_prop.
  destruct (isEmpty _ && inCutset cutset a); [done|].
  cbn [allChars]. by rewrite Ha, IH.
Qed.

Lemma TrimRight_cons_keep (a : ascii) (r cutset : string) :
  inCutset cutset a = false →
  TrimRight (String a r) cutset = String a (TrimRight r cutset).
Proof. intros Ha. cbn [TrimRight]. by rewrite Ha, andb_false_r. Qed.

(** *** Halving the pairs of hyphens *)

Lemma halveHyphenPairs_cons2 (c d : ascii) (r : string) :
  halveHyphenPairs (String c (String d r)) =
    if isHyphen c && isHyphen d then String "-" (halveHyphenPairs r)
    else String c (halveHyphenPairs (String d r)).
Proof. done. Qed.

Lemma prefix_two_hyphens (c d : ascii) (r : string) :
  String.prefix "--" (String c (String d r)) = isHyphen c && isHyphen d.
Proof.
  unfold isHyphen. cbn [String.prefix].
  destruct (ascii_dec "-" c) as [<-|Hc].
  - destruct (ascii_dec "-" d) as [<-|Hd].
    + by destruct r.
    + symmetry. apply Ascii.eqb_neq. congruence.
  - symmetry. apply andb_false_intro1, Ascii.eqb_neq. congruence.
Qed.

Lemma ReplaceFrom_cons (old new : string) (n : Z) (c : ascii) (r : string) :
  ReplaceFrom old new 0 n (String c r) =
    if (n =? 0)%Z then String c r
    else if String.prefix old (String c r)
         then new +:+ ReplaceFrom old new (String.length old - 1) (n - 1) r
         else String c (ReplaceFrom old new 0 n r).
Proof. done. Qed.

Lemma ReplaceFrom_skip (old new : string) (k : nat) (n : Z) (c : ascii) (r : string) :
  ReplaceFrom old new (S k) n (String c r) = ReplaceFrom old new k n r.
Proof. done. Qed.

(** [strings.ReplaceAll(s, "--", "-")] halves the pairs of hyphens of [s]. *)
Lemma ReplaceAll_two_hyphens (s : string) :
  ReplaceAll s "--" "-" = halveHyphenPairs s.
Proof.
  unfold ReplaceAll, Replace.
  assert (Hgen : ∀ n, (n < 0)%Z → ReplaceFrom "--" "-" 0 n s = halveHyphenPairs s);
    [|by apply Hgen].
  induction s as [| c | c d r IHr IHdr] using string_pair_ind; intros n Hn.
  - done.
  - cbn [ReplaceFrom halveHyphenPairs].
    destruct (Z.eqb_spec n 0); [lia|]. cbn [String.prefix].
    destruct (ascii_dec "-" c); done.
  - rewrite ReplaceFrom_cons, halveHyphenPairs_cons2.
    destruct (Z.eqb_spec n 0); [lia|]. rewrite prefix_two_hyphens.
    destruct (isHyphen c && isHyphen d).
    + change (String.length "--" - 1)%nat with 1%nat.
      rewrite ReplaceFrom_skip, IHr by lia. done.
    + by rewrite IHdr.
Qed.

Lemma halveHyphenPairs_chars (p : ascii → bool) (s : string) :
  p "-"%char = true → allChars p s = true → allChars p (halveHyphenPairs s) = true.
Proof.
  intros Hp. induction s as [| c | c d r IHr IHdr] using string_pair_ind;
    [done..|].
  rewrite halveHyphenPairs_cons2. intros Hs.
  change (allChars p (String c (String d r)))
    with (p c && allChars p (String d r)) in Hs.
  apply andb_prop in Hs as [Hc Hdr].
  destruct (isHyphen c && isHyphen d).
  - cbn [allChars]. rewrite Hp, IHr; [done|].
    cbn [allChars] in Hdr. by apply andb_prop in Hdr as [_ ?].
  - cbn [allChars]. by rewrite Hc, IHdr.
Qed.

Lemma halveHyphenPairs_lastChar (s : string) :
  lastChar (halveHyphenPairs s) = lastChar s.
Proof.
  induction s as [| c | c d r IHr IHdr] using string_pair_ind; [done..|].
  rewrite halveHyphenPairs_cons2.
  destruct (isHyphen c && isHyphen d) eqn:Hcd.
  - apply andb_prop in Hcd as [_ ->%isHyphen_eq].
    rewrite !lastChar_cons, IHr. by destruct (lastChar r).
  - rewrite (lastChar_cons c (String d r)), lastChar_cons, IHdr. done.
Qed.

Lemma halveHyphenPairs_cons_keep (c : ascii) (r : string) :
  isHyphen c = false → halveHyphenPairs (String c r) = String c (halveHyphenPairs r).
Proof.
  intros Hc. destruct r as [|d r]; [done|].
  by rewrite halveHyphenPairs_cons2, Hc.
Qed.

Lemma halveHyphenPairs_no_hyphen (s : string) :
  allChars (fun c => negb (isHyphen c)) s = true → halveHyphenPairs s = s.
Proof.
  induction s as [|c r IH]; [done|]. cbn [allChars].
  intros [Hc Hr]%andb_prop. apply negb_true_iff in Hc.
  by rewrite halveHyphenPairs_cons_keep, IH.
Qed.

(** A suffix [-<digits>] survives the halving: the hyphens before the
    digits are halved to one hyphen at least. *)
Lemma halveHyphenPairs_dash_digits (x digits : string) :
  digits ≠ "" →
  allChars isDigit digits = true →
  ∃ pre, halveHyphenPairs (x +:+ "-" +:+ digits) = pre +:+ "-" +:+ digits.
Proof.
  intros Hne Hd.
  assert (Hdigits : halveHyphenPairs digits = digits).
  { apply halveHyphenPairs_no_hyphen. clear Hne.
    induction digits as [|c r IH]; [done|]. cbn [allChars] in *.
    apply andb_prop in Hd as [Hc Hr]. by rewrite (isDigit_not_hyphen c Hc), IH. }
  assert (Hbase : halveHyphenPairs (String "-" digits) = String "-" digits).
  { destruct digits as [|c r]; [done|]. rewrite halveHyphenPairs_cons2.
    cbn [allChars] in Hd. apply andb_prop in Hd as [Hc _].
    by rewrite (isDigit_not_hyphen c Hc), andb_false_r, Hdigits. }
  induction x as [| c | c d r IHr IHdr] using string_pair_ind.
  - exists "". change ("" +:+ "-" +:+ digits) with (String "-" digits).
    by rewrite Hbase.
  - change (String c "" +:+ "-" +:+ digits) with (String c (String "-" digits)).
    rewrite halveHyphenPairs_cons2. change (isHyphen "-") with true.
    rewrite andb_true_r. destruct (isHyphen c) eqn:Hc.
    + exists "". change ("" +:+ "-" +:+ digits) with (String "-" digits).
      by rewrite Hdigits.
    + exists (String c "").
      change (String c "" +:+ "-" +:+ digits) with (String c (String "-" digits)).
      by rewrite Hbase.
  - change (String c (String d r) +:+ "-" +:+ digits)
      with (String c (String d (r +:+ "-" +:+ digits))).
    rewrite halveHyphenPairs_cons2. destruct (isHyphen c && isHyphen d).
    + destruct IHr as [pre ->]. by exists (String "-" pre).
    + destruct IHdr as [pre Hpre].
      change (String d r +:+ "-" +:+ digits)
        with (String d (r +:+ "-" +:+ digits)) in Hpre.
      rewrite Hpre. by exists (String c pre).
Qed.

(** *** The name of the job container *)

Lemma allChars_lastChar (p : ascii → bool) (s : string) (c : ascii) :
  allChars p s = true → lastChar s = Some c → p c = true.
Proof.
  induction s as [|a r IH]; [done|]. cbn [allChars]. rewrite lastChar_cons.
  intros [Ha Hr]%andb_prop. destruct (lastChar r) as [d|].
  - intros [= ->]. by apply IH.
  - by intros [= <-].
Qed.

Lemma inCutset_hyphen (c : ascii) : inCutset "-" c = isHyphen c.
Proof. unfold isHyphen. simpl. apply orb_false_r. Qed.

(** The name before the halving of the hyphens: [act], then what trimming
    leaves of the hyphen and the replaced workflow and job names. *)
Lemma Trim_act (replaced : string) :
  Trim ("act-" +:+ replaced) "-" = "act" +:+ TrimRight (String "-" replaced) "-".
Proof.
  unfold Trim. change ("act-" +:+ replaced)
    with (String "a" (String "c" (String "t" (String "-" replaced)))).
  change (TrimLeft (String "a" (String "c" (String "t" (String "-" replaced)))) "-")
    with (String "a" (String "c" (String "t" (String "-" replaced)))).
  by rewrite !TrimRight_cons_keep by done.
Qed.

Lemma HasPrefix_act (s : string) :
  HasPrefix (String "a" (String "c" (String "t" s))) "act" = true.
Proof. by destruct s. Qed.

Lemma jobContainerName_act (rc : RunContext.t) :
  jobContainerName rc =
    Some ("act" +:+ halveHyphenPairs
                      (TrimRight (String "-" (replaceNonAlnum (contextString rc))) "-")).
Proof.
  rewrite jobContainerName_unfold, ReplaceAll_two_hyphens, Trim_act.
  change ("act" +:+ ?s) with (String "a" (String "c" (String "t" s))).
  by rewrite !halveHyphenPairs_cons_keep by done.
Qed.

(** *** The pattern of the specification *)

Lemma nameLanguage_cons (c : ascii) (t : string) :
  isAlnum c = true → nameLanguage t → nameLanguage (String c t).
Proof.
  intros Hc [s Hs|s t' Hs Ht].
  - apply nameLanguage_run. by apply alnumRun_more.
  - change (String c (s +:+ "-" +:+ t')) with (String c s +:+ "-" +:+ t').
    apply nameLanguage_hyphen; [by apply alnumRun_more | done].
Qed.

Lemma matchesNameFrom_sound (s : string) :
  (matchesNameFrom false s = true → nameLanguage s)
  ∧ (matchesNameFrom true s = true →
     ∀ c, isAlnum c = true → nameLanguage (String c s)).
Proof.
  induction s as [|d r [IHfalse IHtrue]]; (split; [intros Hm | intros Hm c Hc]).
  - done.
  - by apply nameLanguage_run, alnumRun_one.
  - cbn [matchesNameFrom] in Hm. destruct (isAlnum d) eqn:Hd.
    + by apply IHtrue.
    + by destruct (isHyphen d).
  - cbn [matchesNameFrom] in Hm. destruct (isAlnum d) eqn:Hd.
    + apply nameLanguage_cons; [done|]. by apply IHtrue.
    + destruct (isHyphen d) eqn:Hh; [|done]. apply isHyphen_eq in Hh as ->.
      change (String c (String "-" r)) with (String c "" +:+ "-" +:+ r).
      apply nameLanguage_hyphen; [by apply alnumRun_one | by apply IHfalse].
Qed.

Lemma matchesNameFrom_run (b : bool) (s t : string) :
  alnumRun s → matchesNameFrom b (s +:+ t) = matchesNameFrom true t.
Proof.
  intros Hs. revert b. induction Hs as [c Hc|c s Hc Hs IH]; intros b.
  - change (String c "" +:+ t) with (String c t). cbn [matchesNameFrom].
    by rewrite Hc.
  - change (String c s +:+ t) with (String c (s +:+ t)). cbn [matchesNameFrom].
    by rewrite Hc, IH.
Qed.

(** The automaton accepts the language of the pattern, and nothing else. *)
Lemma matchesNamePattern_spec (s : string) :
  matchesNamePattern s = true ↔ nameLanguage s.
Proof.
  split; [apply matchesNameFrom_sound|].
  unfold matchesNamePattern. induction 1 as [s Hs|s t Hs Ht IH].
  - rewrite <- (append_empty_r s). by rewrite matchesNameFrom_run.
  - rewrite matchesNameFrom_run by done.
    change ("-" +:+ t) with (String "-" t). cbn [matchesNameFrom].
    by change (isAlnum "-") with false.
Qed.

(** *** The length of the name *)

Lemma replaceNonAlnumFrom_length (skip : nat) (s : string) :
  (String.length (replaceNonAlnumFrom skip s) ≤ String.length s)%nat.
Proof.
  revert skip. induction s as [|c r IH]; intros skip; [done|].
  cbn [replaceNonAlnumFrom]. destruct skip as [|k].
  - destruct (isAlnum c); cbn [String.length];
      match goal with |- (S (String.length (replaceNonAlnumFrom ?k r)) ≤ _)%nat =>
        specialize (IH k) end; lia.
  - specialize (IH k). cbn [String.length]. lia.
Qed.

Lemma TrimRight_length (s cutset : string) :
  (String.length (TrimRight s cutset) ≤ String.length s)%nat.
Proof.
  induction s as [|c r IH]; [done|]. cbn [TrimRight].
  destruct (isEmpty _ && inCutset cutset c); cbn [String.length]; lia.
Qed.

Lemma halveHyphenPairs_length (s : string) :
  (String.length (halveHyphenPairs s) ≤ String.length s)%nat.
Proof.
  induction s as [| c | c d r IHr IHdr] using string_pair_ind; [done..|].
  rewrite halveHyphenPairs_cons2.
  destruct (isHyphen c && isHyphen d); cbn [String.length] in *; lia.
Qed.

(** The names of the scenarios of the specification, a name whose workflow
    holds a rune of two bytes, and a part before the last one that is
    trimmed around its suffix. *)
Example jobContainerName_scenarios :
  jobContainerName (sampleContext "My Great Workflow" "lint-job" None None)
    = Some "act-My-Great-Workflow-lint-job"
  ∧ jobContainerName (sampleContext "ci" "build-3" None None) = Some "act-ci-build-3"
  ∧ jobContainerName
      (sampleContext (String (ascii_of_nat 195) (String (ascii_of_nat 169) "")) "c"
         None None)
    = Some "act--c"
  ∧ createContainerName ["abcdefghijklmnopqrstuvwxyz-12"; "b"]
    = Some "abcdefghijk-12-b"
  ∧ createContainerName [] = None.
Proof. vm_compute. done. Qed.

(** C2, the inputs that refute it: the workflow [a - b] gives a name with two
    hyphens in a row, which the pattern of the specification rejects; a
    workflow name of 77 characters gives a name of 83 characters. *)
Lemma jobContainerName_not_as_specified :
  jobContainerName (sampleContext "a - b" "c" None None) = Some "act-a--b-c"
  ∧ matchesNamePattern "act-a--b-c" = false
  ∧ ¬ nameLanguage "act-a--b-c"
  ∧ (String.length <$>
       jobContainerName
         (sampleContext
            "aaaaaaaaaaaaaaaaaaaaaaaaaaaaaaaaaaaaaaaaaaaaaaaaaaaaaaaaaaaaaaaaaaaaaaaaaaaaa"
            "c" None None))
    = Some 83%nat.
Proof.
  split; [by vm_compute|]. split; [by vm_compute|]. split; [|by vm_compute].
  intros Hname%matchesNamePattern_spec. by vm_compute in Hname.
Qed.

(** C2, amended. [jobContainerName] returns a name for every workflow name
    and job name. The name holds ASCII letters, digits and hyphens only,
    starts with [act] and does not end with a hyphen; and when the job name
    ends with a hyphen and digits, the name ends with that hyphen and those
    digits. The part of the workflow and job names is not trimmed: the name
    is at most four bytes longer than [<workflow>/<job>], and that is its
    only bound. *)
Theorem jobContainerName_shape (rc : RunContext.t) :
  ∃ name : string,
    jobContainerName rc = Some name
    ∧ allChars isNameChar name = true
    ∧ HasPrefix name "act" = true
    ∧ (∃ c, lastChar name = Some c ∧ isHyphen c = false)
    ∧ (String.length name ≤ 4 + String.length (contextString rc))%nat
    ∧ ∀ pre digits : string,
        RunContext.Name rc = pre +:+ "-" +:+ digits →
        digits ≠ "" →
        allChars isDigit digits = true →
        ∃ pre', name = pre' +:+ "-" +:+ digits.
Proof.
  eexists. split; [apply jobContainerName_act|].
  set (replaced := replaceNonAlnum (contextString rc)).
  set (trimmed := TrimRight (String "-" replaced) "-").
  assert (Hreplaced : allChars isNameChar replaced = true)
    by apply replaceNonAlnumFrom_chars.
  change ("act" +:+ halveHyphenPairs trimmed)
    with (String "a" (String "c" (String "t" (halveHyphenPairs trimmed)))).
  split; [|split; [apply HasPrefix_act|split; [|split]]].
  - cbn [allChars].
    change (isNameChar "a" && (isNameChar "c" && (isNameChar "t" && ?b))) with b.
    apply halveHyphenPairs_chars; [done|]. by apply TrimRight_chars.
  - rewrite !lastChar_cons, halveHyphenPairs_lastChar.
    destruct (lastChar trimmed) as [d|] eqn:Hlast.
    + exists d. split; [done|]. rewrite <- inCutset_hyphen.
      by apply (TrimRight_lastChar (String "-" replaced)).
    + by exists "t"%char.
  - cbn [String.length].
    pose proof (halveHyphenPairs_length trimmed) as Hhalved.
    pose proof (TrimRight_length (String "-" replaced) "-") as Htrimmed.
    pose proof (replaceNonAlnumFrom_length 0 (contextString rc)) as Hlen.
    fold trimmed in Htrimmed.
    change (replaceNonAlnumFrom 0 (contextString rc)) with replaced in Hlen.
    cbn [String.length] in Htrimmed. lia.
  - intros pre digits Hname Hne Hdigits.
    assert (Hlast : ∃ d, lastChar digits = Some d ∧ isHyphen d = false).
    { destruct (lastChar digits) as [d|] eqn:Hlast.
      - exists d. split; [done|].
        apply isDigit_not_hyphen. by apply (allChars_lastChar isDigit digits).
      - by apply lastChar_None in Hlast. }
    destruct Hlast as (d & Hlast & Hd).
    assert (Hrepl : String "-" replaced =
              String "-" (replaceNonAlnum
                            (Run.WorkflowName (RunContext.Run rc) +:+ "/" +:+ pre))
              +:+ "-" +:+ digits).
    { assert (Hctx : contextString rc =
                (Run.WorkflowName (RunContext.Run rc) +:+ "/" +:+ pre)
                +:+ "-" +:+ digits).
      { unfold contextString. rewrite Hname. by rewrite !append_assoc. }
      unfold replaced. by rewrite Hctx, replaceNonAlnum_dash_digits. }
    unfold trimmed. rewrite Hrepl.
    rewrite (TrimRight_id _ "-" d).
    + destruct (halveHyphenPairs_dash_digits
                  (String "-" (replaceNonAlnum
                     (Run.WorkflowName (RunContext.Run rc) +:+ "/" +:+ pre)))
                  digits Hne Hdigits) as [pre0 ->].
      by exists (String "a" (String "c" (String "t" pre0))).
    + rewrite lastChar_app; [|done].
      change ("-" +:+ digits) with (String "-" digits).
      by rewrite lastChar_cons, Hlast.
    + by rewrite inCutset_hyphen.
Qed.

(** * Further properties of the code *)

(** ** Small helpers *)

Lemma take_drop (n : nat) (s : string) : take n s +:+ drop n s = s.
Proof.
  revert n. induction s as [|c r IH]; intros [|n]; try done.
  simpl. by rewrite IH.
Qed.

Lemma take_length (n : nat) (s : string) :
  String.length (take n s) = Nat.min n (String.length s).
Proof.
  revert n. induction s as [|c r IH]; intros [|n]; try done.
  simpl. by rewrite IH.
Qed.

(** [trimToLen(s, l)] is the start of [s], of [l] bytes when [s] has that
    many, of no byte for a negative [l], and all of [s] otherwise. *)
Theorem trimToLen_prefix_length (s : string) (l : Z) :
  (∃ rest, s = trimToLen s l +:+ rest)
  ∧ Z.of_nat (String.length (trimToLen s l))
    = Z.min (Z.of_nat (String.length s)) (Z.max l 0).
Proof.
  unfold trimToLen.
  set (l' := if (l <? 0)%Z then 0%Z else l).
  assert (Hl' : l' = Z.max l 0).
  { unfold l'. destruct (Z.ltb_spec l 0); lia. }
  destruct (Z.gtb_spec (Z.of_nat (String.length s)) l') as [Hlong|Hshort].
  - split.
    + exists (drop (Z.to_nat l') s). by rewrite take_drop.
    + rewrite take_length. lia.
  - split.
    + exists "". by rewrite append_empty_r.
    + lia.
Qed.

(** [GetActPath] never returns the empty path: it is the path that
    [SetActPath] stored, and ["/var/run/act"] when that one is empty. *)
Theorem GetActPath_SetActPath (p : string) (rc : RunContext.t) :
  GetActPath (SetActPath p rc) = (if String.eqb p "" then "/var/run/act" else p)
  ∧ GetActPath rc ≠ "".
Proof.
  split.
  - unfold GetActPath, SetActPath; simpl. by destruct p.
  - unfold GetActPath. by destruct (RunContext.actPath rc).
Qed.

(** ** Merging maps and the cached environment *)

Lemma omap_cons_unfold {A B : Type} (f : A → option B) (x : A) (l : list A) :
  omap f (x :: l) = match f x with Some y => y :: omap f l | None => omap f l end.
Proof. done. Qed.

Lemma mergeMaps_foldl_lookup (maps : list (gmap string string))
    (acc : gmap string string) (k : string) :
  foldl (fun rtnMap m => map_fold (fun k v acc => <[k := v]> acc) rtnMap m) acc maps
    !! k
  = match last (omap (fun m : gmap string string => m !! k) maps) with
    | Some v => Some v
    | None => acc !! k
    end.
Proof.
  revert acc. induction maps as [|m maps IH]; intros acc; [done|].
  cbn [foldl]. rewrite IH, map_fold_insert_union, omap_cons_unfold.
  destruct (m !! k) as [v|] eqn:Hm.
  - rewrite last_cons. destruct (last (omap _ maps)); [done|].
    by rewrite lookup_union, Hm, union_Some_l.
  - destruct (last (omap _ maps)); [done|].
    by rewrite lookup_union, Hm, (left_id_L None _).
Qed.

(** In [mergeMaps(maps...)] the value of a key is the one of the last map
    that defines the key, and a key that no map defines is absent. *)
Theorem mergeMaps_last_wins (maps : list (gmap string string)) (k : string) :
  mergeMaps maps !! k = last (omap (fun m : gmap string string => m !! k) maps).
Proof.
  unfold mergeMaps. rewrite mergeMaps_foldl_lookup, lookup_empty.
  by destruct (last _).
Qed.

(** [GetEnv] computes the environment once: a second call returns the map of
    the first and leaves the run context as it is, whatever [Config] holds
    by then. *)
Theorem GetEnv_cached (cfg cfg' : Config.t) (rc : RunContext.t) :
  GetEnv cfg' (snd (GetEnv cfg rc)) = GetEnv cfg rc.
Proof.
  unfold GetEnv; simpl. by rewrite insert_insert_eq.
Qed.

(** ** The status of the job *)

Lemma jobStatus_fold (results : gmap string stepResult.t) :
  let jobStatus :=
    map_fold
      (fun (_ : string) (stepStatus : stepResult.t) (jobStatus : string) =>
         if negb (stepResult.Success stepStatus) then "failure" else jobStatus)
      "success" results in
  (jobStatus = "failure"
   ∧ ∃ id r, results !! id = Some r ∧ stepResult.Success r = false)
  ∨ (jobStatus = "success"
     ∧ ∀ id r, results !! id = Some r → stepResult.Success r = true).
Proof.
  cbv zeta.
  induction results as [|id r results Hid Hfold IH] using map_first_key_ind.
  - right. rewrite map_fold_empty. split; [done|]. intros id r.
    by rewrite lookup_empty.
  - rewrite map_fold_insert_first_key by done.
    destruct (stepResult.Success r) eqn:Hr; simpl.
    + destruct IH as [(-> & id' & r' & Hlook & Hfail)|(-> & Hall)].
      * left. split; [done|]. exists id', r'. split; [|done].
        rewrite lookup_insert_ne; [done|]. intros <-. congruence.
      * right. split; [done|]. intros id' r'. rewrite lookup_insert.
        case_decide; [by intros [= <-] | apply Hall].
    + left. split; [done|]. exists id, r. by rewrite lookup_insert_eq.
Qed.

(** [getJobContext] reports ["failure"] exactly when some recorded step has
    [Success = false], and ["success"] otherwise, also when no step result
    is recorded yet. *)
Theorem getJobContext_status (rc : RunContext.t) :
  let status := jobContext.Status (fst (getJobContext rc)) in
  (status = "failure" ∧ ∃ id, stepSuccess id rc = Some false)
  ∨ (status = "success" ∧ ∀ id, stepSuccess id rc ≠ Some false).
Proof.
  unfold getJobContext, getStepsContext, stepSuccess.
  destruct (RunContext.StepResults rc) as [results|]; simpl.
  - destruct (jobStatus_fold results) as [(-> & id & r & Hlook & Hfail)|(-> & Hall)].
    + left. split; [done|]. exists id. by rewrite Hlook; simpl; rewrite Hfail.
    + right. split; [done|]. intros id.
      destruct (results !! id) as [r|] eqn:Hlook; simpl; [|done].
      by rewrite (Hall id r Hlook).
  - right. by rewrite map_fold_empty.
Qed.

(** After [InitStepResults] the job counts as successful, whatever the run
    context recorded before. *)
Theorem getJobContext_after_InitStepResults (ks : list string) (rc : RunContext.t) :
  jobContext.Status (fst (getJobContext (InitStepResults ks rc))) = "success".
Proof.
  unfold getJobContext, getStepsContext, InitStepResults; simpl.
  destruct (jobStatus_fold (initStepResultsLoop ks ∅))
    as [(_ & id & r & Hlook & Hfail)|(Hstatus & _)]; [|done].
  rewrite initStepResultsLoop_lookup, lookup_empty in Hlook.
  case_decide; [|done]. injection Hlook as <-. done.
Qed.

(** ** Lookups in the event *)

(** A lookup along a path of keys is the lookup along its first keys
    followed, in the object found there, by the lookup along the rest; when
    the first keys do not lead to an object the result is nil. Without a
    key the result is nil. *)
Theorem nestedMapLookup_path (m : gmap string jsonValue) (k1 : string)
    (r1 : list string) (k2 : string) (r2 : list string) :
  nestedMapLookup m ((k1 :: r1) ++ k2 :: r2)%list
  = match nestedMapLookup m (k1 :: r1) with
    | JObject m' => nestedMapLookup m' (k2 :: r2)
    | _ => JNull
    end
  ∧ nestedMapLookup m [] = JNull.
Proof.
  split; [|done].
  revert m k1. induction r1 as [|k r IH]; intros m k1.
  - simpl. destruct (m !! k1) as [[]|]; done.
  - change ((k1 :: k :: r) ++ k2 :: r2)%list with (k1 :: ((k :: r) ++ k2 :: r2))%list.
    cbn [nestedMapLookup app]. destruct (m !! k1) as [rval|]; [|done].
    destruct rval; try done. apply IH.
Qed.

Lemma withDefaultBranch_nil (b : string) : withDefaultBranch b None = None.
Proof. unfold withDefaultBranch, readMap. simpl. by rewrite !lookup_empty. Qed.

(** What [withDefaultBranch] does with an event that is not the nil map. *)
Lemma withDefaultBranch_Some (b : string) (m : gmap string jsonValue) :
  ∃ m1,
    withDefaultBranch b (Some m) = Some (Some m1)
    ∧ (∀ k, k ≠ "repository" → m1 !! k = m !! k)
    ∧ nestedMapLookup m1 ["repository"; "default_branch"]
      = match m !! "repository" with
        | None => JString b
        | Some (JObject repo) => default (JString b) (repo !! "default_branch")
        | Some _ => JNull
        end
    ∧ ∀ b2, withDefaultBranch b2 (Some m1) = Some (Some m1).
Proof.
  unfold withDefaultBranch, readMap. simpl.
  destruct (m !! "repository") as [[| | | | |repo]|] eqn:Hrepo; simpl.
  1-5: exists m; split; [done|]; split; [done|]; rewrite Hrepo; done.
  - destruct (repo !! "default_branch") as [v|] eqn:Hdb; simpl.
    + exists m. split; [done|]. split; [done|]. rewrite Hrepo; simpl.
      rewrite Hdb. done.
    + eexists. split; [done|]. split; [|split].
      * intros k Hk. by rewrite lookup_insert_ne.
      * by rewrite !lookup_insert_eq.
      * intros b2. by rewrite lookup_insert_eq; simpl; rewrite lookup_insert_eq.
  - rewrite lookup_empty. simpl. eexists. split; [done|]. split; [|split].
    + intros k Hk. by rewrite lookup_insert_ne.
    + by rewrite !lookup_insert_eq.
    + intros b2. by rewrite lookup_insert_eq; simpl; rewrite lookup_insert_eq.
Qed.

Lemma withDefaultBranch_frame (b : string)
    (event event1 : option (gmap string jsonValue)) (k : string) :
  withDefaultBranch b event = Some event1 →
  k ≠ "repository" →
  readMap event1 !! k = readMap event !! k.
Proof.
  intros Hbranch Hk. destruct event as [m|].
  - destruct (withDefaultBranch_Some b m) as (m1 & Hm1 & Hframe & _).
    rewrite Hm1 in Hbranch. injection Hbranch as <-. by apply Hframe.
  - by rewrite withDefaultBranch_nil in Hbranch.
Qed.

(** [withDefaultBranch] panics exactly for an event that is the nil map.
    For any other event it returns a map that differs from the event under
    ["repository"] at most, and it never replaces a default branch: applied
    to its own result, with whatever branch, it returns that result. *)
Theorem withDefaultBranch_first_wins (b1 b2 : string)
    (event : option (gmap string jsonValue)) :
  match withDefaultBranch b1 event with
  | None => event = None
  | Some event1 =>
      withDefaultBranch b2 event1 = Some event1
      ∧ ∃ m m1,
          event = Some m ∧ event1 = Some m1
          ∧ ∀ k, k ≠ "repository" → m1 !! k = m !! k
  end.
Proof.
  destruct event as [m|].
  - destruct (withDefaultBranch_Some b1 m) as (m1 & -> & Hframe & _ & Hagain).
    split; [apply Hagain|]. by exists m, m1.
  - by rewrite withDefaultBranch_nil.
Qed.

(** For an event that is not the nil map, the default branch of the
    repository after [withDefaultBranch(b, event)] is the one the event had,
    or else [b]; an event whose ["repository"] is not an object is left
    without default branch. For the nil map [withDefaultBranch] panics. *)
Theorem withDefaultBranch_lookup (b : string)
    (event : option (gmap string jsonValue)) :
  match event with
  | None => withDefaultBranch b event = None
  | Some m =>
      ∃ m1,
        withDefaultBranch b event = Some (Some m1)
        ∧ nestedMapLookup m1 ["repository"; "default_branch"]
          = match m !! "repository" with
            | None => JString b
            | Some (JObject repo) => default (JString b) (repo !! "default_branch")
            | Some _ => JNull
            end
  end.
Proof.
  destruct event as [m|].
  - destruct (withDefaultBranch_Some b m) as (m1 & Hm1 & _ & Hlook & _).
    by exists m1.
  - apply withDefaultBranch_nil.
Qed.

(** ** The defaults of the github context *)

Lemma withDefaultBranch_choice (d : string) (event : option (gmap string jsonValue)) :
  (if negb (String.eqb d "") then withDefaultBranch d event
   else withDefaultBranch "master" event)
  = withDefaultBranch (if String.eqb d "" then "master" else d) event.
Proof. by destruct (String.eqb d ""). Qed.

Lemma applyDefaults_cases `{Host} (ghc : githubContext.t) (cfg : Config.t)
    (rc : RunContext.t) :
  match nestedMapLookup (readMap (decodedEvent ghc rc))
          [githubContext.EventName ghc; "ref"] with
  | JNull =>
      match withDefaultBranch
              (if String.eqb (Config.DefaultBranch cfg) "" then "master"
               else Config.DefaultBranch cfg)
              (decodedEvent ghc rc) with
      | None => applyDefaults ghc cfg rc = None
      | Some event1 =>
          ∃ ghc', applyDefaults ghc cfg rc = Some ghc'
            ∧ githubContext.Ref ghc' =
                (if snd (FindGitRef (Config.Workdir cfg)) is Some _
                 then githubContext.Ref ghc
                 else fst (FindGitRef (Config.Workdir cfg)))
            ∧ githubContext.Event ghc' = event1
      end
  | JString ref =>
      ∃ ghc', applyDefaults ghc cfg rc = Some ghc'
        ∧ githubContext.Ref ghc' = ref
        ∧ githubContext.Event ghc' = decodedEvent ghc rc
  | _ => applyDefaults ghc cfg rc = None
  end.
Proof.
  unfold applyDefaults. fold (decodedEvent ghc rc).
  destruct (FindGithubRepo _ _) as [repo [e1|]];
    destruct (FindGitRevision _) as [[short sha] [e2|]];
    destruct (nestedMapLookup _ _) as [| | | ref | |]; simpl; try done;
    try (destruct (FindGitRef _) as [ref' [e3|]]; simpl;
         rewrite withDefaultBranch_choice;
         destruct (withDefaultBranch _ _) as [event1|]; simpl; try done;
         destruct (String.eqb (githubContext.EventName ghc) "pull_request");
         by eexists);
    destruct (String.eqb (githubContext.EventName ghc) "pull_request");
    by eexists.
Qed.

Lemma nestedMapLookup_empty (ks : list string) : nestedMapLookup ∅ ks = JNull.
Proof. destruct ks as [|k ks]; [done|]. simpl. by rewrite lookup_empty. Qed.

(** [applyDefaults] panics exactly when the decoded event is the nil map, or
    holds, under the name of the event, a [ref] that is neither nil nor a
    string. A string [ref] of the event becomes the ref, and the event is
    left as decoded; without one, and with an event that is not the nil
    map, the ref is the one of git (the ref at hand when git fails) and the
    event is the one [withDefaultBranch] returns for the default branch,
    ["master"] when [Config.DefaultBranch] is empty. *)
Theorem applyDefaults_ref `{Host} (ghc : githubContext.t) (cfg : Config.t)
    (rc : RunContext.t) :
  let event := decodedEvent ghc rc in
  let eventRef :=
    nestedMapLookup (readMap event) [githubContext.EventName ghc; "ref"] in
  (applyDefaults ghc cfg rc = None
   ↔ event = None ∨ (eventRef ≠ JNull ∧ ∀ ref, eventRef ≠ JString ref))
  ∧ (∀ ref, eventRef = JString ref →
       ∃ ghc', applyDefaults ghc cfg rc = Some ghc'
         ∧ githubContext.Ref ghc' = ref
         ∧ githubContext.Event ghc' = event)
  ∧ (eventRef = JNull → event ≠ None →
       ∃ ghc', applyDefaults ghc cfg rc = Some ghc'
         ∧ githubContext.Ref ghc' =
             (if snd (FindGitRef (Config.Workdir cfg)) is Some _
              then githubContext.Ref ghc
              else fst (FindGitRef (Config.Workdir cfg)))
         ∧ withDefaultBranch
             (if String.eqb (Config.DefaultBranch cfg) "" then "master"
              else Config.DefaultBranch cfg)
             event
           = Some (githubContext.Event ghc')).
Proof.
  intros event eventRef. pose proof (applyDefaults_cases ghc cfg rc) as Hcases.
  fold event in Hcases. fold eventRef in Hcases.
  set (b := if String.eqb (Config.DefaultBranch cfg) "" then "master"
            else Config.DefaultBranch cfg) in *.
  destruct event as [m|] eqn:Hev.
  - destruct (withDefaultBranch_Some b m) as (m1 & Hm1 & _).
    rewrite Hm1 in Hcases. split; [|split].
    + destruct eventRef as [| | | ref | |] eqn:Href;
        try (split; [intros _; right; by split|done]).
      * destruct Hcases as (ghc' & -> & _). split; [done|].
        by intros [?|[? _]].
      * destruct Hcases as (ghc' & -> & _). split; [done|].
        intros [?|[_ Hne]]; [done|by destruct (Hne ref)].
    + intros ref Href. by rewrite Href in Hcases.
    + intros Href _. rewrite Href in Hcases.
      destruct Hcases as (ghc' & Happly & Hr & He). exists ghc'. by rewrite He.
  - assert (Href : eventRef = JNull) by apply nestedMapLookup_empty.
    rewrite Href in Hcases |- *. rewrite withDefaultBranch_nil in Hcases.
    split; [|split]; [|done..]. split; [by left|done].
Qed.

(** The event [null] is decoded to the nil map, for which [applyDefaults]
    panics. *)
Example applyDefaults_null_event :
  decodedEvent (H := nullEventHost) emptyGithubContext (sampleContextWithEvent "null")
    = None
  ∧ applyDefaults (H := nullEventHost) emptyGithubContext sampleConfig
      (sampleContextWithEvent "null") = None.
Proof. split; reflexivity. Qed.

(** A github context that [applyDefaults] returns has a run id, a run
    number, the retention days, the perflog path and an actor, none of them
    empty: a value at hand is kept, an empty one gets its default. *)
Theorem applyDefaults_fills_blanks `{Host} (ghc ghc' : githubContext.t)
    (cfg : Config.t) (rc : RunContext.t) :
  applyDefaults ghc cfg rc = Some ghc' →
  let orDefault (v d : string) := if String.eqb v "" then d else v in
  githubContext.RunID ghc' = orDefault (githubContext.RunID ghc) "1"
  ∧ githubContext.RunNumber ghc' = orDefault (githubContext.RunNumber ghc) "1"
  ∧ githubContext.RetentionDays ghc' = orDefault (githubContext.RetentionDays ghc) "0"
  ∧ githubContext.RunnerPerflog ghc'
    = orDefault (githubContext.RunnerPerflog ghc) "/dev/null"
  ∧ githubContext.Actor ghc' = orDefault (githubContext.Actor ghc) "nektos/act"
  ∧ githubContext.RunID ghc' ≠ "" ∧ githubContext.RunNumber ghc' ≠ ""
  ∧ githubContext.RetentionDays ghc' ≠ "" ∧ githubContext.RunnerPerflog ghc' ≠ ""
  ∧ githubContext.Actor ghc' ≠ "".
Proof.
  unfold applyDefaults.
  destruct (FindGithubRepo _ _) as [repo [e1|]];
    destruct (FindGitRevision _) as [[short sha] [e2|]];
    destruct (nestedMapLookup _ _) as [| | | ref | |]; simpl; try done;
    try destruct (FindGitRef _) as [ref' [e3|]]; simpl;
    try (rewrite withDefaultBranch_choice;
         destruct (withDefaultBranch _ _) as [event1|] eqn:Hbranch; simpl; try done);
    destruct (String.eqb (githubContext.EventName ghc) "pull_request");
    intros [= <-]; simpl;
    repeat split; try done;
    match goal with
    | |- (if String.eqb ?v "" then _ else _) ≠ "" =>
        by destruct (String.eqb_spec v "")
    end.
Qed.

(** The empty github context on a host in a git repository. *)
Lemma applyDefaults_fills_blanks_witness :
  ∃ ghc',
    applyDefaults (H := repoHost) emptyGithubContext sampleConfig
      (sampleContext "ci" "build" None None) = Some ghc'
    ∧ githubContext.RunID ghc' = "1"
    ∧ githubContext.Actor ghc' = "nektos/act".
Proof.
  destruct (applyDefaults (H := repoHost) emptyGithubContext sampleConfig
              (sampleContext "ci" "build" None None)) as [ghc'|] eqn:Happly;
    [|by vm_compute in Happly].
  exists ghc'. split; [done|].
  destruct (applyDefaults_fills_blanks (H := repoHost) emptyGithubContext ghc'
              sampleConfig (sampleContext "ci" "build" None None) Happly)
    as (HrunID & _ & _ & _ & Hactor & _).
  split; [exact HrunID | exact Hactor].
Defined.

(** ** The variables of [withGithubEnv] *)

Lemma imageOSLoop_frame (ee : option ExpressionEvaluator.t) (labels : list string)
    (env env' : gmap string string) (k : string) :
  imageOSLoop ee labels env = Some env' → k ≠ "ImageOS" → env' !! k = env !! k.
Proof.
  revert env. induction labels as [|runnerLabel rest IH]; intros env; simpl.
  - by intros [= <-].
  - destruct ee as [ev|]; simpl; [|done]. intros Hloop Hk.
    rewrite (IH _ Hloop Hk).
    destruct (negb _); [by rewrite lookup_insert_ne | done].
Qed.

Lemma withGithubEnv_unfold `{Host} (cfg : Config.t) (rc : RunContext.t)
    (env env' : gmap string string) :
  withGithubEnv cfg rc env = Some env' →
  ∃ github,
    getGithubContext cfg rc = Some github
    ∧ ∀ k, k ≠ "ImageOS" →
        env' !! k = githubEnvAssignments cfg rc github env !! k.
Proof.
  unfold withGithubEnv. destruct (getGithubContext cfg rc) as [github|]; [|done].
  simpl. intros Henv. exists github. split; [done|]. intros k Hk.
  destruct (Job.RunsOn _) as [labels|].
  - by apply (imageOSLoop_frame (RunContext.ExprEval rc) labels).
  - by injection Henv as <-.
Qed.

(** In the environment that [withGithubEnv] returns the three URLs point to
    the public service for the instance [github.com], and otherwise to the
    configured instance with its [/api/v3] and [/api/graphql] paths;
    [GITHUB_ACTION_PATH] is written for a non-empty action path of the github
    context only and keeps its old value otherwise. *)
Theorem withGithubEnv_urls `{Host} (cfg : Config.t) (rc : RunContext.t)
    (github : githubContext.t) (env env' : gmap string string) :
  getGithubContext cfg rc = Some github →
  withGithubEnv cfg rc env = Some env' →
  let instance := Config.GitHubInstance cfg in
  env' !! "GITHUB_SERVER_URL"
    = Some (if String.eqb instance "github.com" then "https://github.com"
            else "https://" +:+ instance)
  ∧ env' !! "GITHUB_API_URL"
    = Some (if String.eqb instance "github.com" then "https://api.github.com"
            else "https://" +:+ instance +:+ "/api/v3")
  ∧ env' !! "GITHUB_GRAPHQL_URL"
    = Some (if String.eqb instance "github.com"
            then "https://api.github.com/graphql"
            else "https://" +:+ instance +:+ "/api/graphql")
  ∧ env' !! "GITHUB_ACTION_PATH"
    = (if String.eqb (githubContext.ActionPath github) ""
       then env !! "GITHUB_ACTION_PATH"
       else Some (githubContext.ActionPath github)).
Proof.
  intros Hgithub Henv instance.
  destruct (withGithubEnv_unfold cfg rc env env' Henv) as (github' & Hgithub' & Hlook).
  assert (github' = github) as -> by congruence.
  rewrite !Hlook by done. unfold githubEnvAssignments. cbv zeta. fold instance.
  destruct (String.eqb instance "github.com"),
           (String.eqb (githubContext.ActionPath github) ""); cbn [negb];
    repeat split;
    repeat (rewrite lookup_insert_ne by done); by rewrite ?lookup_insert_eq.
Qed.

(** The sample run context on an instance of its own. *)
Lemma withGithubEnv_urls_witness :
  let cfg := Config.mk "/work" false "push" "" "" false false false false false
               false "" "" "" "ghe.example.com" ∅ ∅ ∅ in
  let rc := sampleContext "ci" "build" None None in
  ∃ env',
    withGithubEnv (H := sampleHost) cfg rc ∅ = Some env'
    ∧ env' !! "GITHUB_SERVER_URL" = Some "https://ghe.example.com"
    ∧ env' !! "GITHUB_API_URL" = Some "https://ghe.example.com/api/v3"
    ∧ env' !! "GITHUB_GRAPHQL_URL" = Some "https://ghe.example.com/api/graphql"
    ∧ env' !! "GITHUB_ACTION_PATH" = None.
Proof.
  intros cfg rc.
  destruct (getGithubContext (H := sampleHost) cfg rc) as [github|] eqn:Hgithub;
    [|by vm_compute in Hgithub].
  destruct (withGithubEnv (H := sampleHost) cfg rc ∅) as [env'|] eqn:Henv;
    [|by vm_compute in Henv].
  exists env'. split; [done|].
  pose proof (withGithubEnv_urls (H := sampleHost) cfg rc github ∅ env' Hgithub Henv)
    as (Hserver & Hapi & Hgraphql & Hpath).
  assert (Hempty : githubContext.ActionPath github = "").
  { vm_compute in Hgithub. by injection Hgithub as <-. }
  rewrite Hempty in Hpath. done.
Defined.

(** [withGithubEnv] writes under its own keys only: every other variable of
    the environment is in the result as it was. *)
Theorem withGithubEnv_frame `{Host} (cfg : Config.t) (rc : RunContext.t)
    (env env' : gmap string string) (k : string) :
  withGithubEnv cfg rc env = Some env' →
  k ∉ githubEnvKeys →
  env' !! k = env !! k.
Proof.
  intros Henv Hk.
  destruct (withGithubEnv_unfold cfg rc env env' Henv) as (github & _ & Hlook).
  unfold githubEnvKeys in Hk. rewrite !not_elem_of_cons in Hk.
  destruct_and!.
  rewrite Hlook by done. unfold githubEnvAssignments. cbv zeta.
  destruct (negb (String.eqb (Config.GitHubInstance cfg) "github.com")),
           (negb (String.eqb (githubContext.ActionPath github) ""));
    by rewrite !lookup_insert_ne.
Qed.

(** A variable of the workflow passes through. *)
Lemma withGithubEnv_frame_witness :
  ∃ env',
    withGithubEnv (H := sampleHost) sampleConfig
      (sampleContext "ci" "build" None None) (<["MY_VAR" := "1"]> ∅) = Some env'
    ∧ env' !! "MY_VAR" = Some "1".
Proof.
  destruct (withGithubEnv (H := sampleHost) sampleConfig
              (sampleContext "ci" "build" None None) (<["MY_VAR" := "1"]> ∅))
    as [env'|] eqn:Henv; [|by vm_compute in Henv].
  exists env'. split; [done|].
  rewrite (withGithubEnv_frame (H := sampleHost) sampleConfig
             (sampleContext "ci" "build" None None) (<["MY_VAR" := "1"]> ∅)
             env' "MY_VAR" Henv); [done|].
  unfold githubEnvKeys. rewrite !not_elem_of_cons. repeat split; try done.
  apply not_elem_of_nil.
Defined.

(** ** Binds and mounts *)

Lemma append_env_not_toolcache (s : string) : s +:+ "-env" ≠ "act-toolcache".
Proof.
  intros Heq. apply (f_equal lastChar) in Heq.
  rewrite lastChar_app in Heq by done. done.
Qed.

Lemma append_env_not_self (s : string) : s +:+ "-env" ≠ s.
Proof.
  intros Heq. apply (f_equal String.length) in Heq.
  rewrite append_length in Heq. simpl in Heq. lia.
Qed.

Lemma mounts_bound (name act : string) :
  let mounts : gmap string string :=
    <[name +:+ "-env" := act]> (<["act-toolcache" := "/toolcache"]> ∅) in
  mounts !! (name +:+ "-env") = Some act
  ∧ dom mounts = {["act-toolcache"; name +:+ "-env"]}
  ∧ mounts !! "act-toolcache" = Some "/toolcache".
Proof.
  cbv zeta. pose proof (append_env_not_toolcache name) as Henv.
  split; [apply lookup_insert_eq|]. split.
  - by rewrite !dom_insert_L, dom_empty_L, (right_id_L ∅ (∪)), (comm_L (∪)).
  - by rewrite lookup_insert_ne, lookup_insert_eq.
Qed.

Lemma mounts_volume (name act workdir : string) :
  let mounts : gmap string string :=
    <[name := workdir]>
      (<[name +:+ "-env" := act]> (<["act-toolcache" := "/toolcache"]> ∅)) in
  mounts !! (name +:+ "-env") = Some act
  ∧ mounts !! name = Some workdir
  ∧ mounts !! "act-toolcache"
    = Some (if decide (name = "act-toolcache") then workdir else "/toolcache").
Proof.
  cbv zeta. pose proof (append_env_not_toolcache name) as Henv.
  pose proof (append_env_not_self name) as Hself.
  split; [|split].
  - rewrite lookup_insert_ne by done. apply lookup_insert_eq.
  - apply lookup_insert_eq.
  - case_decide as Hcase.
    + subst name. apply lookup_insert_eq.
    + rewrite 2!lookup_insert_ne by done. apply lookup_insert_eq.
Qed.

(** [GetBindsAndMounts] binds the daemon socket first, never with an empty
    host path, and mounts the volume [<name>-env] at the act path. The
    working directory is either bound (a second bind, and no volume named as
    the container) or mounted as the volume [<name>]. The tool cache volume
    is mounted at [/toolcache], unless the container itself is named
    [act-toolcache] and the working directory is a volume: that volume then
    takes the place of the tool cache. *)
Theorem GetBindsAndMounts_shape `{Host} (cfg : Config.t) (rc : RunContext.t) :
  ∃ name binds mounts cfg',
    jobContainerName rc = Some name
    ∧ GetBindsAndMounts cfg rc = Some (binds, mounts, cfg')
    ∧ head binds
      = Some (Config.ContainerDaemonSocket cfg' +:+ ":/var/run/docker.sock")
    ∧ Config.ContainerDaemonSocket cfg' ≠ ""
    ∧ mounts !! (name +:+ "-env") = Some (GetActPath rc)
    ∧ if Config.BindWorkdir cfg then
        binds !! 1%nat
        = Some (Config.Workdir cfg +:+ ":" +:+ ContainerWorkdir cfg' rc
                +:+ (if String.eqb GOOS "darwin" then ":delegated" else ""))
        ∧ length binds = 2%nat
        ∧ dom mounts = {["act-toolcache"; name +:+ "-env"]}
        ∧ mounts !! "act-toolcache" = Some "/toolcache"
      else
        length binds = 1%nat
        ∧ mounts !! name = Some (ContainerWorkdir cfg' rc)
        ∧ mounts !! "act-toolcache"
          = Some (if decide (name = "act-toolcache") then ContainerWorkdir cfg' rc
                  else "/toolcache").
Proof.
  pose proof (jobContainerName_unfold rc) as Hname.
  set (name := ReplaceAll _ _ _) in Hname.
  unfold GetBindsAndMounts. rewrite Hname. cbn [mbind option_bind].
  destruct (String.eqb_spec (Config.ContainerDaemonSocket cfg) "") as [Hsock|Hsock];
    simpl; destruct (Config.BindWorkdir cfg) eqn:Hbind;
    eexists name, _, _, _; (split; [done|]); (split; [reflexivity|]);
    simpl; rewrite ?Hbind; (split; [done|]); (split; [done|]).
  - destruct (mounts_bound name (GetActPath rc)) as (? & ? & ?). by split_and!.
  - destruct (mounts_volume name (GetActPath rc)
                (ContainerWorkdir
                   (Config.setContainerDaemonSocket "/var/run/docker.sock" cfg) rc))
      as (? & ? & ?). by split_and!.
  - destruct (mounts_bound name (GetActPath rc)) as (? & ? & ?). by split_and!.
  - destruct (mounts_volume name (GetActPath rc) (ContainerWorkdir cfg rc))
      as (? & ? & ?). by split_and!.
Qed.

(** A second call of [GetBindsAndMounts], with the [Config] that the first
    one left, returns the same binds and mounts and leaves that [Config]
    unchanged: the default of the daemon socket is written once. *)
Theorem GetBindsAndMounts_stable `{Host} (cfg : Config.t) (rc : RunContext.t) :
  (GetBindsAndMounts cfg rc ≫= fun r => GetBindsAndMounts (snd r) rc)
  = GetBindsAndMounts cfg rc.
Proof.
  unfold GetBindsAndMounts. rewrite jobContainerName_unfold. cbn [mbind option_bind].
  destruct (String.eqb (Config.ContainerDaemonSocket cfg) "") eqn:Hsock;
    destruct (Config.BindWorkdir cfg) eqn:Hbind; simpl;
    rewrite ?Hsock, ?Hbind; simpl; rewrite ?Hbind; done.
Qed.

(** The container of the workflow [toolcache] with an empty job name is
    named [act-toolcache]: its working directory volume replaces the tool
    cache volume. *)
Example GetBindsAndMounts_toolcache_collision :
  let rc := sampleContext "toolcache" "" None None in
  jobContainerName rc = Some "act-toolcache"
  ∧ (GetBindsAndMounts (H := sampleHost) sampleConfig rc
     ≫= fun r => snd (fst r) !! "act-toolcache") = Some "/work".
Proof. by vm_compute. Qed.

(** ** The expression gate *)

(** [previousOrNextPartIsAnOperator(i, parts)] returns for the indices from
    [-1] to [len(parts)] and panics on an index out of range for every
    other [i]. *)
Theorem previousOrNextPartIsAnOperator_range `{Patterns} (i : Z) (parts : list string) :
  is_Some (previousOrNextPartIsAnOperator i parts)
  ↔ (-1 ≤ i ≤ Z.of_nat (length parts))%Z.
Proof.
  unfold previousOrNextPartIsAnOperator, index.
  destruct (Z.gtb_spec i 0) as [Hpos|Hneg].
  - destruct (Z.ltb_spec (i - 1) 0); [lia|].
    destruct (parts !! Z.to_nat (i - 1)) as [p|] eqn:Hprev; simpl.
    + apply lookup_lt_Some in Hprev.
      destruct (Z.ltb_spec (i + 1) (Z.of_nat (length parts))) as [Hnext|Hlast].
      * split; [lia|]. intros _. destruct (operatorPattern p); [by eexists|].
        destruct (Z.ltb_spec (i + 1) 0); [lia|].
        destruct (lookup_lt_is_Some_2 parts (Z.to_nat (i + 1))) as [q ->]; [lia|].
        by eexists.
      * split; [lia|]. by eexists.
    + apply lookup_ge_None in Hprev. split; [by intros [? ?]|]. lia.
  - simpl. destruct (Z.ltb_spec (i + 1) (Z.of_nat (length parts))) as [Hnext|Hlast].
    + destruct (Z.ltb_spec (i + 1) 0) as [Hlow|Hlow]; simpl.
      * split; [by intros [? ?]|]. lia.
      * destruct (lookup_lt_is_Some_2 parts (Z.to_nat (i + 1))) as [q ->]; [lia|].
        split; [lia|]. by eexists.
    + split; [lia|]. by eexists.
Qed.

Lemma evaluateParts_total `{Patterns} (ev : ExpressionEvaluator.t)
    (parts : list string) :
  is_Some (evaluateParts (Some ev) parts).
Proof. destruct (evaluateParts_lookup ev parts) as (evaluated & -> & _). by eexists. Qed.

Lemma EvalBool_total_bound `{Patterns} (rc : RunContext.t)
    (ev : ExpressionEvaluator.t) (expr : string) :
  RunContext.ExprEval rc = Some ev →
  ∃ (b : bool) (err : option error), EvalBool rc expr = Some (b, err).
Proof.
  intros Hev. unfold EvalBool. rewrite Hev.
  destruct (HasPrefix (TrimSpace expr) "!"); [by eexists _, _|].
  destruct (String.eqb_spec expr "") as [->|Hne]; simpl; [by eexists _, _|].
  destruct (evaluateParts_total ev (splitPattern expr)) as [evaluated ->]; simpl.
  destruct (ExpressionEvaluator.Evaluate ev _) as [[v raw] [e|]]; by eexists _, _.
Qed.

(** With an evaluator bound [EvalBool] returns for every expression, true
    only without error. Without one (a nil [ExprEval]) it returns for the
    empty expression and for one that starts with [!], and panics for every
    other expression. *)
Theorem EvalBool_returns `{Patterns} (rc : RunContext.t) (expr : string) :
  match RunContext.ExprEval rc with
  | Some _ =>
      ∃ (b : bool) (err : option error),
        EvalBool rc expr = Some (b, err) ∧ (b = true → err = None)
  | None =>
      EvalBool rc expr = None
      ↔ expr ≠ "" ∧ HasPrefix (TrimSpace expr) "!" = false
  end.
Proof.
  unfold EvalBool. destruct (RunContext.ExprEval rc) as [ev|] eqn:Hev.
  - destruct (HasPrefix (TrimSpace expr) "!"); [by eexists _, _|].
    destruct (String.eqb_spec expr "") as [->|Hne]; simpl; [by eexists _, _|].
    destruct (evaluateParts_total ev (splitPattern expr)) as [evaluated ->]; simpl.
    destruct (ExpressionEvaluator.Evaluate ev _) as [[v raw] [e|]];
      by eexists _, _.
  - destruct (HasPrefix (TrimSpace expr) "!"); [by split; [|intros [_ ?]]|].
    destruct (String.eqb_spec expr "") as [->|Hne]; simpl.
    + by split; [|intros [? _]].
    + split; [done|]. intros _. by destruct (evaluateParts None _).
Qed.

(** ** The paths of the step dispatcher *)

(** A step whose [if:] evaluates to false is skipped: the executor returns
    nil in the state of the step entry, so the step is recorded as
    successful with an empty map of outputs, and neither [setupEnv] nor the
    step ran: the evaluator bound to the run context is the one from
    before. *)
Theorem newStepExecutor_skips `{Patterns} `{StepEngine} (step : Step.t)
    (ctx : Context.t) (rc : RunContext.t) :
  EvalBool (stepEntry step rc) (Step.If step) = Some (false, None) →
  newStepExecutor step ctx rc = Some (stepEntry step rc, None)
  ∧ stepSuccess (Step.ID step) (stepEntry step rc) = Some true
  ∧ (RunContext.StepResults (stepEntry step rc) ≫= (.!! Step.ID step))
    = Some (stepResult.mk true (Some ∅))
  ∧ RunContext.ExprEval (stepEntry step rc) = RunContext.ExprEval rc
  ∧ RunContext.CurrentStep (stepEntry step rc) = Step.ID step.
Proof.
  intros Heval. rewrite newStepExecutor_entry, Heval; simpl.
  split; [done|].
  unfold stepSuccess, stepEntry, putStepResult, getStepsContext; simpl.
  destruct (RunContext.StepResults rc); simpl; by rewrite lookup_insert_eq.
Qed.

(** A step whose [if:] an evaluator finds false. *)
Lemma newStepExecutor_skips_witness :
  let step := Step.mk "s1" "false" false in
  let rc :=
    RunContext.setExprEval (Some falseEvaluator)
      (sampleContext "ci" "build" None None) in
  newStepExecutor (H := samplePatterns) (H0 := failingEngine) step Background rc
    = Some (stepEntry step rc, None)
  ∧ stepSuccess "s1" (stepEntry step rc) = Some true
  ∧ (RunContext.StepResults (stepEntry step rc) ≫= (.!! "s1"))
    = Some (stepResult.mk true (Some ∅))
  ∧ RunContext.ExprEval (stepEntry step rc) = RunContext.ExprEval rc
  ∧ RunContext.CurrentStep (stepEntry step rc) = "s1".
Proof.
  intros step rc.
  by apply (newStepExecutor_skips (H := samplePatterns) (H0 := failingEngine)
              step Background rc).
Defined.

(** When [setupEnv] fails for a step that is to run, the executor returns
    that error without running the step and without marking it failed: the
    state is the one [setupEnv] left, in which the evaluator is not bound. *)
Theorem newStepExecutor_setupEnv_error `{Patterns} `{StepEngine} (step : Step.t)
    (ctx : Context.t) (rc rc1 : RunContext.t)
    (ee : option ExpressionEvaluator.t) (e : error) :
  EvalBool (stepEntry step rc) (Step.If step) = Some (true, None) →
  setupEnv step (stepEntry step rc) = (rc1, ee, Some e) →
  newStepExecutor step ctx rc = Some (rc1, Some e).
Proof.
  intros Heval Hsetup. rewrite newStepExecutor_entry, Heval; simpl.
  by rewrite Hsetup.
Qed.

(** A step without [if:] under an engine whose [setupEnv] fails: the error
    is returned and the step still counts as successful. *)
Lemma newStepExecutor_setupEnv_error_witness :
  let step := Step.mk "s1" "" false in
  let rc := sampleContext "ci" "build" None None in
  newStepExecutor (H := samplePatterns) (H0 := setupFailsEngine) step Background rc
    = Some (stepEntry step rc, Some "unable to interpolate")
  ∧ stepSuccess "s1" (stepEntry step rc) = Some true.
Proof.
  intros step rc. split; [|reflexivity].
  by apply (newStepExecutor_setupEnv_error (H := samplePatterns)
              (H0 := setupFailsEngine) step Background rc (stepEntry step rc) None).
Defined.

(** A step that fails without [ContinueOnError] makes the job a failure: in
    the state that the executor of the step leaves, [getJobContext] reports
    ["failure"]. The step engine is taken to leave the current step and an
    entry for it in the step results. *)
Theorem failed_step_fails_job `{Patterns} `{StepEngine} (step : Step.t)
    (ctx : Context.t) (rc rc1 rc2 : RunContext.t)
    (ee : option ExpressionEvaluator.t) (e : error)
    (results : gmap string stepResult.t) (r : stepResult.t) :
  EvalBool (stepEntry step rc) (Step.If step) = Some (true, None) →
  setupEnv step (stepEntry step rc) = (rc1, ee, None) →
  stepExecutor step (RunContext.setExprEval ee rc1) = (rc2, Some e) →
  RunContext.CurrentStep rc2 = Step.ID step →
  RunContext.StepResults rc2 = Some results →
  results !! Step.ID step = Some r →
  Step.ContinueOnError step = false →
  ∃ rc3,
    newStepExecutor step ctx rc = Some (rc3, Some e)
    ∧ jobContext.Status (fst (getJobContext rc3)) = "failure".
Proof.
  intros Heval Hsetup Hexec Hcur Hres Hr Hcont.
  destruct (setStepSuccess_present (Step.ID step) false rc2 results r)
    as (rc3 & Hset & Hs & _); [done..|].
  exists rc3. split.
  - rewrite newStepExecutor_entry, Heval; simpl.
    rewrite Hsetup, Hexec, Hcur, Hcont. by rewrite Hset.
  - unfold getJobContext, getStepsContext. unfold stepSuccess in Hs.
    destruct (RunContext.StepResults rc3) as [results3|]; [|done]. simpl.
    destruct (jobStatus_fold results3) as [(-> & _)|(_ & Hall)]; [done|].
    destruct (results3 !! Step.ID step) as [r3|] eqn:Hr3; [|done].
    simpl in Hs. injection Hs as Hs. by rewrite (Hall _ _ Hr3) in Hs.
Qed.

(** A step without [ContinueOnError] under an engine whose step fails. *)
Lemma failed_step_fails_job_witness :
  let step := Step.mk "s1" "" false in
  let rc := sampleContext "ci" "build" None None in
  ∃ rc3,
    newStepExecutor (H := samplePatterns) (H0 := failingEngine) step Background rc
      = Some (rc3, Some "exit with `FAILURE`: 1")
    ∧ jobContext.Status (fst (getJobContext rc3)) = "failure".
Proof.
  intros step rc.
  apply (failed_step_fails_job (H := samplePatterns) (H0 := failingEngine)
           step Background rc (stepEntry step rc)
           (putStepResult "s1" (stepResult.mk true (Some (<["out" := "1"]> ∅)))
              (RunContext.setExprEval (Some sampleEvaluator) (stepEntry step rc)))
           (Some sampleEvaluator) "exit with `FAILURE`: 1"
           (<["s1" := stepResult.mk true (Some (<["out" := "1"]> ∅))]>
              (<["s1" := stepResult.mk true (Some ∅)]> ∅))
           (stepResult.mk true (Some (<["out" := "1"]> ∅))));
    reflexivity.
Defined.

(** ** The platform of a job *)

Lemma platformImageLoop_first `{Unicode} (ev : ExpressionEvaluator.t)
    (platforms : gmap string string) (labels : list string) :
  platformImageLoop (Some ev) platforms labels
  = Some (default ""
            (head (filter (fun image => image ≠ "")
                     ((fun label =>
                         mapGet platforms
                           (ToLower (ExpressionEvaluator.Interpolate ev label)))
                        <$> labels)))).
Proof.
  induction labels as [|label rest IH]; [done|].
  cbn [platformImageLoop mbind option_bind]. rewrite fmap_cons.
  destruct (String.eqb_spec
              (mapGet platforms (ToLower (ExpressionEvaluator.Interpolate ev label)))
              "") as [Hempty|Hnonempty]; cbn [negb].
  - rewrite filter_cons_False by (by intros ?). apply IH.
  - by rewrite filter_cons_True.
Qed.

Lemma platformImage_bound `{JobModel} `{Unicode} (cfg : Config.t)
    (rc : RunContext.t) (ev : ExpressionEvaluator.t) :
  RunContext.ExprEval rc = Some ev →
  platformImage cfg rc
  = Some match jobContainerImage (Run.Job (RunContext.Run rc)) with
         | Some image => ExpressionEvaluator.Interpolate ev image
         | None =>
             default ""
               (head (filter (fun image => image ≠ "")
                        ((fun label =>
                            mapGet (Config.Platforms cfg)
                              (ToLower (ExpressionEvaluator.Interpolate ev label)))
                           <$> default [] (Job.RunsOn (Run.Job (RunContext.Run rc))))))
         end.
Proof.
  intros Hev. unfold platformImage. rewrite Hev.
  destruct (jobContainerImage _); [done|]. apply platformImageLoop_first.
Qed.

(** With an evaluator bound, [platformImage] is the interpolated image of
    the job container when the job has one; otherwise it is the image that
    [Config.Platforms] holds for the first label of [runs-on], in their
    order, whose lowered interpolation has a non-empty image, and the empty
    string when there is no such label. *)
Theorem platformImage_first_match `{JobModel} `{Unicode} (cfg : Config.t)
    (rc : RunContext.t) (ev : ExpressionEvaluator.t) :
  RunContext.ExprEval rc = Some ev →
  platformImage cfg rc
  = Some match jobContainerImage (Run.Job (RunContext.Run rc)) with
         | Some image => ExpressionEvaluator.Interpolate ev image
         | None =>
             default ""
               (head (filter (fun image => image ≠ "")
                        ((fun label =>
                            mapGet (Config.Platforms cfg)
                              (ToLower (ExpressionEvaluator.Interpolate ev label)))
                           <$> default [] (Job.RunsOn (Run.Job (RunContext.Run rc))))))
         end.
Proof. apply platformImage_bound. Qed.

(** Two labels of which the second has a platform. *)
Lemma platformImage_first_match_witness :
  let cfg := Config.mk "/work" false "push" "" "" false false false false false
               false "" "" "" "github.com" ∅ ∅
               (<["ubuntu-latest" := "node:16-buster-slim"]> ∅) in
  let rc := sampleContext "ci" "build" (Some ["self-hosted"; "ubuntu-latest"]) None in
  platformImage (H := plainJobModel) (H0 := noLowering) cfg rc
    = Some "node:16-buster-slim".
Proof.
  intros cfg rc.
  by rewrite (platformImage_first_match (H := plainJobModel) (H0 := noLowering)
                cfg rc sampleEvaluator).
Defined.

(** With an evaluator bound, [isEnabled] returns: a job is enabled exactly
    when its [if:] evaluates to true without error and it has a platform
    image; an error of the evaluation disables the job and is not
    returned. *)
Theorem isEnabled_iff `{Patterns} `{JobModel} `{Unicode} (cfg : Config.t)
    (rc : RunContext.t) (ev : ExpressionEvaluator.t) :
  RunContext.ExprEval rc = Some ev →
  ∃ b : bool,
    isEnabled cfg rc = Some b
    ∧ (b = true
       ↔ EvalBool rc (Job.If (Run.Job (RunContext.Run rc))) = Some (true, None)
         ∧ ∃ img, platformImage cfg rc = Some img ∧ img ≠ "").
Proof.
  intros Hev. unfold isEnabled.
  pose proof (EvalBool_total_bound rc ev (Job.If (Run.Job (RunContext.Run rc))) Hev)
    as (b & err & Heval).
  rewrite Heval; simpl.
  rewrite (platformImage_bound cfg rc ev Hev).
  destruct err as [e|]; simpl.
  { exists false. split; [done|]. split; [done|]. by intros [? _]. }
  destruct b; simpl.
  2: { exists false. split; [done|]. split; [done|]. by intros [? _]. }
  set (img := match jobContainerImage _ with Some _ => _ | None => _ end).
  destruct (String.eqb_spec img "") as [Himg|Himg].
  - exists false. split; [done|]. split; [done|].
    intros (_ & img' & [= <-] & Hne). done.
  - exists true. split; [done|]. split; [|done]. intros _. split; [done|].
    by exists img.
Qed.

(** A job without [if:] whose label has a platform. *)
Lemma isEnabled_iff_witness :
  let cfg := Config.mk "/work" false "push" "" "" false false false false false
               false "" "" "" "github.com" ∅ ∅
               (<["ubuntu-latest" := "node:16-buster-slim"]> ∅) in
  let rc := sampleContext "ci" "build" (Some ["ubuntu-latest"]) None in
  ∃ b : bool,
    isEnabled (H := samplePatterns) (H0 := plainJobModel) (H1 := noLowering) cfg rc
      = Some b
    ∧ (b = true
       ↔ EvalBool (H := samplePatterns) rc "" = Some (true, None)
         ∧ ∃ img,
             platformImage (H := plainJobModel) (H0 := noLowering) cfg rc = Some img
             ∧ img ≠ "").
Proof.
  intros cfg rc.
  by apply (isEnabled_iff (H := samplePatterns) (H0 := plainJobModel)
              (H1 := noLowering) cfg rc sampleEvaluator).
Defined.

(** ** The outputs of a job *)

(** [interpolateOutputs] replaces the value of every output of the job by
    its interpolation, and adds or removes no output. *)
Theorem interpolateOutputsWith_fmap (ee : ExpressionEvaluator.t)
    (outputs : gmap string string) :
  interpolateOutputsWith ee outputs = ExpressionEvaluator.Interpolate ee <$> outputs
  ∧ dom (interpolateOutputsWith ee outputs) = dom outputs.
Proof.
  assert (Hgen : ∀ m acc : gmap string string,
            (∀ k v, m !! k = Some v → acc !! k = Some v) →
            map_fold
              (fun k v (outputs : gmap string string) =>
                 let interpolated := ExpressionEvaluator.Interpolate ee v in
                 if negb (String.eqb v interpolated) then <[k := interpolated]> outputs
                 else outputs)
              acc m
            = (ExpressionEvaluator.Interpolate ee <$> m) ∪ acc).
  { intros m. induction m as [|k v m Hk Hfold IH] using map_first_key_ind;
      intros acc Hacc.
    - by rewrite map_fold_empty, fmap_empty, (left_id_L ∅ (∪)).
    - rewrite map_fold_insert_first_key by done. cbv zeta.
      rewrite IH.
      2: { intros k' v' Hk'. apply Hacc. rewrite lookup_insert_ne; [done|].
           intros <-. congruence. }
      rewrite fmap_insert.
      destruct (String.eqb_spec v (ExpressionEvaluator.Interpolate ee v))
        as [Hsame|Hdiff]; cbn [negb].
      + rewrite <- insert_union_l. symmetry. apply insert_id.
        rewrite lookup_union, lookup_fmap, Hk; simpl.
        rewrite (Hacc k v) by apply lookup_insert_eq.
        by rewrite <- Hsame.
      + by rewrite insert_union_l. }
  assert (Heq : interpolateOutputsWith ee outputs
                = ExpressionEvaluator.Interpolate ee <$> outputs).
  { unfold interpolateOutputsWith. rewrite Hgen by done.
    apply map_eq. intros k. rewrite lookup_union, lookup_fmap.
    by destruct (outputs !! k). }
  split; [done|]. by rewrite Heq, dom_fmap_L.
Qed.

(** ** Container names of any parts *)

Lemma take_chars (p : ascii → bool) (n : nat) (s : string) :
  allChars p s = true → allChars p (take n s) = true.
Proof.
  revert n. induction s as [|c r IH]; intros [|n]; try done.
  cbn [allChars take]. intros [Hc Hr]%andb_prop. by rewrite Hc, IH.
Qed.

Lemma trimToLen_chars (p : ascii → bool) (s : string) (l : Z) :
  allChars p s = true → allChars p (trimToLen s l) = true.
Proof.
  intros Hs. unfold trimToLen. destruct (_ >? _)%Z; [by apply take_chars | done].
Qed.

Lemma isDashDigits_chars (s : string) :
  isDashDigits s = true → allChars isNameChar s = true.
Proof.
  destruct s as [|c r]; [done|]. cbn [isDashDigits allChars].
  intros [[Hc _]%andb_prop Hr]%andb_prop.
  unfold isNameChar at 1. rewrite Hc, orb_true_r. cbn [andb].
  clear c Hc. induction r as [|d r IH]; [done|]. cbn [allChars] in *.
  apply andb_prop in Hr as [Hd Hr]. unfold isNameChar at 1.
  by rewrite (isDigit_isAlnum d Hd), IH.
Qed.

Lemma findDashDigitsSuffix_Some (s suffix : string) :
  findDashDigitsSuffix s = Some suffix → isDashDigits suffix = true.
Proof.
  induction s as [|c r IH]; [done|]. cbn [findDashDigitsSuffix].
  destruct (isDashDigits (String c r)) eqn:Hs; [by intros [= <-] | done].
Qed.

Lemma containerNamePart_chars (partLen len i : Z) (part : string) :
  Forall (fun s => allChars isNameChar s = true) (containerNamePart partLen len i part).
Proof.
  unfold containerNamePart. destruct (_ =? _)%Z.
  - apply Forall_singleton, replaceNonAlnumFrom_chars.
  - destruct (findDashDigitsSuffix part) as [num0|] eqn:Hnum.
    + repeat apply Forall_cons_2; [| |done].
      * apply trimToLen_chars, replaceNonAlnumFrom_chars.
      * by eapply isDashDigits_chars, findDashDigitsSuffix_Some.
    + apply Forall_singleton, trimToLen_chars, replaceNonAlnumFrom_chars.
Qed.

Lemma containerNameLoop_chars (partLen len i : Z) (parts name : list string) :
  Forall (fun s => allChars isNameChar s = true) name →
  Forall (fun s => allChars isNameChar s = true)
    (containerNameLoop partLen len i parts name).
Proof.
  revert i name. induction parts as [|part rest IH]; intros i name Hname; [done|].
  cbn [containerNameLoop]. apply IH, Forall_app. split; [done|].
  apply containerNamePart_chars.
Qed.

Lemma Join_chars (p : ascii → bool) (elems : list string) (sep : string) :
  allChars p sep = true →
  Forall (fun s => allChars p s = true) elems →
  allChars p (Join elems sep) = true.
Proof.
  intros Hsep. induction 1 as [|e rest He Hrest IH]; [done|].
  destruct rest as [|e' rest]; [done|].
  change (Join (e :: e' :: rest) sep) with (e +:+ sep +:+ Join (e' :: rest) sep).
  by rewrite !allChars_app, He, Hsep, IH.
Qed.

Lemma TrimLeft_chars (p : ascii → bool) (s cutset : string) :
  allChars p s = true → allChars p (TrimLeft s cutset) = true.
Proof.
  induction s as [|c r IH]; [done|]. cbn [TrimLeft].
  intros Hs. destruct (inCutset cutset c); [|done].
  cbn [allChars] in Hs. apply IH. by apply andb_prop in Hs as [_ ?].
Qed.

Lemma TrimLeft_firstChar (s cutset : string) (c : ascii) :
  firstChar (TrimLeft s cutset) = Some c → inCutset cutset c = false.
Proof.
  induction s as [|a r IH]; [done|]. cbn [TrimLeft].
  destruct (inCutset cutset a) eqn:Ha; [done|]. by intros [= <-].
Qed.

Lemma TrimRight_firstChar (s cutset : string) (c : ascii) :
  firstChar (TrimRight s cutset) = Some c → firstChar s = Some c.
Proof.
  destruct s as [|a r]; [done|]. cbn [TrimRight].
  by destruct (isEmpty _ && inCutset cutset a).
Qed.

Lemma halveHyphenPairs_firstChar (s : string) :
  firstChar (halveHyphenPairs s) = firstChar s.
Proof.
  destruct s as [|c [|d r]]; [done..|]. rewrite halveHyphenPairs_cons2.
  destruct (isHyphen c && isHyphen d) eqn:Hcd; [|done].
  by apply andb_prop in Hcd as [->%isHyphen_eq _].
Qed.

(** [createContainerName] panics without parts, on the division by their
    number. For any parts it returns a name, possibly empty, of ASCII
    letters, digits and hyphens that neither starts nor ends with a
    hyphen. *)
Theorem createContainerName_shape (parts : list string) :
  match createContainerName parts with
  | None => parts = []
  | Some name =>
      parts ≠ []
      ∧ allChars isNameChar name = true
      ∧ firstChar name ≠ Some "-"%char
      ∧ lastChar name ≠ Some "-"%char
  end.
Proof.
  unfold createContainerName.
  destruct parts as [|part rest]; [done|].
  change (Z.of_nat (length (part :: rest)) =? 0)%Z with false. cbv iota zeta.
  set (name := containerNameLoop _ _ _ _ _).
  assert (Hname : Forall (fun s => allChars isNameChar s = true) name)
    by by apply containerNameLoop_chars.
  rewrite ReplaceAll_two_hyphens. split; [done|]. split; [|split].
  - apply halveHyphenPairs_chars; [done|]. unfold Trim.
    by apply TrimRight_chars, TrimLeft_chars, Join_chars.
  - rewrite halveHyphenPairs_firstChar. intros Hfirst.
    apply TrimRight_firstChar, TrimLeft_firstChar in Hfirst. done.
  - rewrite halveHyphenPairs_lastChar. intros Hlast.
    apply TrimRight_lastChar in Hlast. done.
Qed.

(** A single empty part gives the empty name, and a part of hyphens too. *)
Example createContainerName_empty_name :
  createContainerName [""] = Some "" ∧ createContainerName ["a"; "--/--"] = Some "a".
Proof. by vm_compute. Qed.

(** *** The number of a matrix job *)

Lemma findDashDigitsSuffix_app (pre digits : string) :
  digits ≠ "" →
  allChars isDigit digits = true →
  findDashDigitsSuffix (pre +:+ "-" +:+ digits) = Some ("-" +:+ digits).
Proof.
  intros Hne Hd.
  assert (Hhere : isDashDigits (String "-" digits) = true).
  { cbn [isDashDigits]. rewrite Hd. by destruct digits. }
  induction pre as [|c pre IH].
  - change ("" +:+ "-" +:+ digits) with (String "-" digits).
    cbn [findDashDigitsSuffix]. by rewrite Hhere.
  - change (String c pre +:+ "-" +:+ digits) with (String c (pre +:+ "-" +:+ digits)).
    cbn [findDashDigitsSuffix]. rewrite IH.
    assert (Hnot : isDashDigits (String c (pre +:+ "-" +:+ digits)) = false);
      [|by rewrite Hnot].
    cbn [isDashDigits]. rewrite allChars_app.
    change ("-" +:+ digits) with (String "-" digits). cbn [allChars].
    change (isDigit "-") with false. cbn [andb]. by rewrite !andb_false_r.
Qed.

Lemma containerNameLoop_appends (partLen len i : Z) (parts name : list string) :
  ∃ more, containerNameLoop partLen len i parts name = (name ++ more)%list.
Proof.
  revert i name. induction parts as [|part rest IH]; intros i name.
  - exists []. by rewrite app_nil_r.
  - cbn [containerNameLoop]. destruct (IH (i + 1)%Z
      (name ++ containerNamePart partLen len i part)%list) as [more ->].
    eexists. by rewrite <- app_assoc.
Qed.

Lemma Join_two_more (a b : string) (more : list string) :
  ∃ tail, Join (a :: b :: more) "-" = a +:+ "-" +:+ b +:+ tail.
Proof.
  destruct more as [|c more].
  - exists "". cbn [Join]. by rewrite append_empty_r.
  - exists ("-" +:+ Join (c :: more) "-"). done.
Qed.

Lemma TrimLeft_app_keep (u z cutset : string) (c : ascii) :
  firstChar z = Some c → inCutset cutset c = false →
  ∃ u', TrimLeft (u +:+ z) cutset = u' +:+ z.
Proof.
  intros Hz Hc. induction u as [|a u IH].
  - exists "". destruct z as [|d z]; [done|]. injection Hz as ->.
    change ("" +:+ String c z) with (String c z). cbn [TrimLeft]. by rewrite Hc.
  - change (String a u +:+ z) with (String a (u +:+ z)). cbn [TrimLeft].
    destruct (inCutset cutset a); [done|]. by exists (String a u).
Qed.

Lemma TrimRight_app_keep (x y cutset : string) (c : ascii) :
  lastChar x = Some c → inCutset cutset c = false →
  TrimRight (x +:+ y) cutset = x +:+ TrimRight y cutset.
Proof.
  induction x as [|a x IH]; [done|]. rewrite lastChar_cons.
  change (String a x +:+ y) with (String a (x +:+ y)). cbn [TrimRight].
  destruct (lastChar x) as [d|] eqn:Hlast.
  - intros [= ->] Hc. rewrite IH by done.
    destruct x as [|b x]; [done|]. done.
  - intros [= ->] Hc. apply lastChar_None in Hlast as ->.
    change ("" +:+ y) with y. by rewrite Hc, andb_false_r.
Qed.

Lemma halveHyphenPairs_app_keep (x z : string) (d : ascii) :
  firstChar z = Some d → isHyphen d = false →
  ∃ a, halveHyphenPairs (x +:+ z) = a +:+ halveHyphenPairs z.
Proof.
  intros Hz Hd. destruct z as [|d' z]; [done|]. injection Hz as ->.
  induction x as [| c | c e r IHr IHer] using string_pair_ind.
  - by exists "".
  - change (String c "" +:+ String d z) with (String c (String d z)).
    rewrite halveHyphenPairs_cons2, Hd, andb_false_r. by exists (String c "").
  - change (String c (String e r) +:+ String d z)
      with (String c (String e (r +:+ String d z))).
    rewrite halveHyphenPairs_cons2. destruct (isHyphen c && isHyphen e).
    + destruct IHr as [a ->]. by exists (String "-" a).
    + destruct IHer as [a Ha].
      change (String e r +:+ String d z) with (String e (r +:+ String d z)) in Ha.
      rewrite Ha. by exists (String c a).
Qed.

Lemma halveHyphenPairs_hyphen_keep (x z : string) (d : ascii) :
  firstChar z = Some d → isHyphen d = false →
  ∃ a, halveHyphenPairs (x +:+ "-" +:+ z) = a +:+ "-" +:+ halveHyphenPairs z.
Proof.
  intros Hz Hd. destruct z as [|d' z]; [done|]. injection Hz as ->.
  assert (Hbase : halveHyphenPairs (String "-" (String d z))
                  = String "-" (halveHyphenPairs (String d z))).
  { by rewrite halveHyphenPairs_cons2, Hd, andb_false_r. }
  induction x as [| c | c e r IHr IHer] using string_pair_ind.
  - exists "". change ("" +:+ "-" +:+ String d z) with (String "-" (String d z)).
    by rewrite Hbase.
  - change (String c "" +:+ "-" +:+ String d z)
      with (String c (String "-" (String d z))).
    rewrite halveHyphenPairs_cons2. change (isHyphen "-") with true.
    rewrite andb_true_r. destruct (isHyphen c) eqn:Hc.
    + exists "". by rewrite (halveHyphenPairs_cons_keep d z Hd).
    + exists (String c "").
      change (String c "" +:+ "-" +:+ halveHyphenPairs (String d z))
        with (String c (String "-" (halveHyphenPairs (String d z)))).
      by rewrite Hbase.
  - change (String c (String e r) +:+ "-" +:+ String d z)
      with (String c (String e (r +:+ "-" +:+ String d z))).
    rewrite halveHyphenPairs_cons2. destruct (isHyphen c && isHyphen e).
    + destruct IHr as [a ->]. by exists (String "-" a).
    + destruct IHer as [a Ha].
      change (String e r +:+ "-" +:+ String d z)
        with (String e (r +:+ "-" +:+ String d z)) in Ha.
      rewrite Ha. by exists (String c a).
Qed.

Lemma halveHyphenPairs_digits_app (digits y : string) :
  allChars isDigit digits = true →
  halveHyphenPairs (digits +:+ y) = digits +:+ halveHyphenPairs y.
Proof.
  induction digits as [|c r IH]; [done|]. cbn [allChars].
  intros [Hc Hr]%andb_prop.
  change (String c r +:+ y) with (String c (r +:+ y)).
  rewrite halveHyphenPairs_cons_keep by by apply isDigit_not_hyphen.
  by rewrite IH.
Qed.

Lemma digits_first_last (digits : string) :
  digits ≠ "" → allChars isDigit digits = true →
  (∃ c, firstChar digits = Some c ∧ isHyphen c = false)
  ∧ (∃ c, lastChar digits = Some c ∧ isHyphen c = false).
Proof.
  intros Hne Hd. split.
  - destruct digits as [|c r]; [done|]. exists c. split; [done|].
    cbn [allChars] in Hd. apply andb_prop in Hd as [Hc _].
    by apply isDigit_not_hyphen.
  - destruct (lastChar digits) as [c|] eqn:Hlast.
    + exists c. split; [done|]. apply isDigit_not_hyphen.
      by apply (allChars_lastChar isDigit digits).
    + by apply lastChar_None in Hlast.
Qed.

Lemma firstChar_app (a b : string) (c : ascii) :
  firstChar a = Some c → firstChar (a +:+ b) = Some c.
Proof. by destruct a. Qed.

Lemma containerNameLoop_app (partLen len i : Z) (l1 l2 name : list string) :
  containerNameLoop partLen len i (l1 ++ l2)%list name
  = containerNameLoop partLen len (i + Z.of_nat (length l1)) l2
      (containerNameLoop partLen len i l1 name).
Proof.
  revert i name. induction l1 as [|part l1 IH]; intros i name.
  - simpl. by rewrite Z.add_0_r.
  - change ((part :: l1) ++ l2)%list with (part :: (l1 ++ l2))%list.
    cbn [containerNameLoop]. rewrite IH. f_equal. simpl length. lia.
Qed.

Lemma Join_cons2 (x y : string) (l : list string) (sep : string) :
  Join (x :: y :: l) sep = x +:+ sep +:+ Join (y :: l) sep.
Proof. done. Qed.

Lemma Join_app_two_more (before : list string) (a b : string) (more : list string) :
  ∃ head tail,
    Join (before ++ a :: b :: more)%list "-" = head +:+ a +:+ "-" +:+ b +:+ tail.
Proof.
  induction before as [|x before IH].
  - destruct (Join_two_more a b more) as [tail Htail]. by exists "", tail.
  - destruct IH as (head & tail & IH).
    exists (x +:+ "-" +:+ head), tail.
    change ((x :: before) ++ a :: b :: more)%list
      with (x :: (before ++ a :: b :: more))%list.
    destruct (before ++ a :: b :: more)%list as [|y l] eqn:Hl.
    { by destruct before. }
    rewrite Join_cons2, IH. by rewrite !append_assoc.
Qed.

(** A part before the last one that ends with a hyphen and digits, the
    number of a matrix job, whatever parts come before it: the name holds
    the digits. When the part starts with a letter or digit and the number
    is short enough to leave a byte of the part, the name holds the hyphen
    and the digits. *)
Theorem createContainerName_keeps_number (before : list string)
    (pre digits : string) (rest : list string) :
  rest ≠ [] →
  digits ≠ "" →
  allChars isDigit digits = true →
  ∃ name,
    createContainerName (before ++ (pre +:+ "-" +:+ digits) :: rest) = Some name
    ∧ (∃ a b, name = a +:+ digits +:+ b)
    ∧ ((∃ c, firstChar pre = Some c ∧ isAlnum c = true) →
       (Z.of_nat (String.length digits) + 1
        < Z.quot 30 (Z.of_nat (length before + S (length rest))) - 1)%Z →
       ∃ a b, name = a +:+ "-" +:+ digits +:+ b).
Proof.
  intros Hrest Hne Hd.
  destruct (digits_first_last digits Hne Hd)
    as [(dfirst & Hdfirst & Hdfirst') (dlast & Hdlast & Hdlast')].
  unfold createContainerName.
  assert (Hlen : length (before ++ (pre +:+ "-" +:+ digits) :: rest)%list
                 = (length before + S (length rest))%nat).
  { by rewrite length_app. }
  set (len := Z.of_nat (length (before ++ (pre +:+ "-" +:+ digits) :: rest)%list)).
  destruct (Z.eqb_spec len 0) as [Hzero|_]; [unfold len in Hzero; lia|].
  cbv zeta. eexists. split; [reflexivity|].
  set (partLen := (Z.quot 30 len - 1)%Z).
  rewrite containerNameLoop_app.
  set (names := containerNameLoop partLen len 0 before []).
  cbn [containerNameLoop]. unfold containerNamePart.
  assert (Hnotlast : (0 + Z.of_nat (length before) =? len - 1)%Z = false).
  { apply Z.eqb_neq. unfold len. rewrite Hlen. destruct rest; [done|].
    simpl length. lia. }
  rewrite Hnotlast, findDashDigitsSuffix_app by done.
  set (t := trimToLen _ _).
  destruct (containerNameLoop_appends partLen len (0 + Z.of_nat (length before) + 1)
              rest (names ++ [t; "-" +:+ digits])%list) as [more ->].
  rewrite <- app_assoc.
  change ([t; "-" +:+ digits] ++ more)%list with (t :: ("-" +:+ digits) :: more).
  destruct (Join_app_two_more names t ("-" +:+ digits) more)
    as (head & tail & ->).
  rewrite ReplaceAll_two_hyphens. unfold Trim. split.
  - assert (Hjoin : head +:+ t +:+ "-" +:+ ("-" +:+ digits) +:+ tail
                    = (head +:+ t +:+ "--") +:+ (digits +:+ tail)).
    { rewrite !append_assoc. done. }
    rewrite Hjoin.
    destruct (TrimLeft_app_keep (head +:+ t +:+ "--") (digits +:+ tail) "-" dfirst)
      as [u' ->]; [by apply firstChar_app | by rewrite inCutset_hyphen |].
    rewrite <- append_assoc.
    rewrite (TrimRight_app_keep (u' +:+ digits) tail "-" dlast);
      [|by rewrite lastChar_app | by rewrite inCutset_hyphen].
    rewrite append_assoc.
    destruct (halveHyphenPairs_app_keep u' (digits +:+ TrimRight tail "-") dfirst)
      as [a ->]; [by apply firstChar_app | done |].
    rewrite halveHyphenPairs_digits_app by done. by eexists _, _.
  - intros (c & Hc & Hcalnum) Hshort.
    assert (Htfirst : firstChar t = Some c).
    { unfold t, trimToLen. destruct pre as [|c' pre']; [done|]. injection Hc as ->.
      change (String c pre' +:+ "-" +:+ digits)
        with (String c (pre' +:+ "-" +:+ digits)).
      unfold replaceNonAlnum. cbn [replaceNonAlnumFrom]. rewrite Hcalnum.
      change (String.length ("-" +:+ digits)) with (S (String.length digits)).
      assert (Hpos : (0 < partLen - Z.of_nat (S (String.length digits)))%Z).
      { unfold partLen, len. rewrite Hlen. lia. }
      destruct (Z.ltb_spec (partLen - Z.of_nat (S (String.length digits))) 0); [lia|].
      destruct (_ >? _)%Z; [|done].
      destruct (Z.to_nat (partLen - Z.of_nat (S (String.length digits)))) eqn:Hn;
        [lia|done]. }
    assert (Hcut : inCutset "-" c = false).
    { rewrite inCutset_hyphen. destruct (isHyphen c) eqn:Hh; [|done].
      apply isHyphen_eq in Hh as ->. by vm_compute in Hcalnum. }
    destruct (TrimLeft_app_keep head (t +:+ "-" +:+ ("-" +:+ digits) +:+ tail) "-" c)
      as [u' ->]; [by apply firstChar_app | done |].
    assert (Hjoin : u' +:+ t +:+ "-" +:+ ("-" +:+ digits) +:+ tail
                    = (((u' +:+ t) +:+ "-") +:+ "-" +:+ digits) +:+ tail).
    { rewrite !append_assoc. done. }
    rewrite Hjoin.
    rewrite (TrimRight_app_keep _ tail "-" dlast);
      [|by rewrite !lastChar_app | by rewrite inCutset_hyphen].
    rewrite (append_assoc _ ("-" +:+ digits)).
    change (("-" +:+ digits) +:+ TrimRight tail "-")
      with ("-" +:+ (digits +:+ TrimRight tail "-")).
    destruct (halveHyphenPairs_hyphen_keep ((u' +:+ t) +:+ "-")
                (digits +:+ TrimRight tail "-") dfirst)
      as [a ->]; [by apply firstChar_app | done |].
    rewrite halveHyphenPairs_digits_app by done. by eexists _, _.
Qed.

(** The parts [a], [job-12] and [x]: the number of the part in the middle is
    kept with its hyphen. *)
Lemma createContainerName_keeps_number_witness :
  ∃ name,
    createContainerName ["a"; "job-12"; "x"] = Some name
    ∧ (∃ a b, name = a +:+ "12" +:+ b)
    ∧ ((∃ c, firstChar "job" = Some c ∧ isAlnum c = true) →
       (Z.of_nat (String.length "12") + 1 < Z.quot 30 (Z.of_nat 3) - 1)%Z →
       ∃ a b, name = a +:+ "-" +:+ "12" +:+ b).
Proof.
  by apply (createContainerName_keeps_number ["a"] "job" "12" ["x"]).
Defined.

(** The parts [build-3] and [x]: the number is kept, here twice. A part of
    hyphens before its number, where the hyphen of the number is lost. A
    long part in the middle, which is cut before its number. *)
Example createContainerName_number_edges :
  createContainerName ["build-3"; "x"] = Some "build-3-3-x"
  ∧ createContainerName ["----------------5"; "x"] = Some "5-x"
  ∧ createContainerName ["a"; "abcdefghijklmnopqrstuvwxyz-12"; "x"]
    = Some "a-abcdef-12-x".
Proof. by vm_compute. Qed.

(** ** The repository and the pull request of the github context *)

Lemma Index_none_cons (c : ascii) (s sep : string) :
  Index (String c s) sep = None → Index s sep = None.
Proof.
  cbn [Index]. destruct (String.prefix sep (String c s)); [done|].
  by destruct (Index s sep).
Qed.

Lemma splitFirst_app (owner name : string) :
  Contains owner "/" = false → splitFirst (owner +:+ "/" +:+ name) "/" = owner.
Proof.
  unfold Contains, splitFirst. intros Hno.
  assert (Hidx : Index (owner +:+ "/" +:+ name) "/" = Some (String.length owner)
                 ∧ take (String.length owner) (owner +:+ "/" +:+ name) = owner).
  { induction owner as [|c owner IH].
    - change ("" +:+ "/" +:+ name) with (String "/" name). cbn [Index].
      by rewrite prefix_single.
    - change (String c owner +:+ "/" +:+ name)
        with (String c (owner +:+ "/" +:+ name)).
      destruct (Index (String c owner) "/") eqn:Hc; [done|].
      pose proof (Index_none_cons c owner "/" Hc) as Howner.
      cbn [Index] in Hc |- *. rewrite prefix_single in Hc |- *.
      destruct (Ascii.eqb c "/"); [done|].
      destruct IH as [-> Htake]; [by rewrite Howner|].
      cbn [fmap option_fmap option_map String.length take]. by rewrite Htake. }
  destruct Hidx as [-> Htake]. done.
Qed.

(** When git finds the repository [<owner>/<name>], [applyDefaults] stores it
    as the repository; the owner of the repository is the one at hand, or
    else [<owner>]. *)
Theorem applyDefaults_repository `{Host} (ghc ghc' : githubContext.t)
    (cfg : Config.t) (rc : RunContext.t) (owner name : string) :
  FindGithubRepo (Config.Workdir cfg) (Config.GitHubInstance cfg)
    = (owner +:+ "/" +:+ name, None) →
  Contains owner "/" = false →
  applyDefaults ghc cfg rc = Some ghc' →
  githubContext.Repository ghc' = owner +:+ "/" +:+ name
  ∧ githubContext.RepositoryOwner ghc'
    = (if String.eqb (githubContext.RepositoryOwner ghc) "" then owner
       else githubContext.RepositoryOwner ghc).
Proof.
  intros Hrepo Howner. unfold applyDefaults. rewrite Hrepo.
  rewrite (splitFirst_app owner name Howner).
  destruct (FindGitRevision _) as [[short sha] [e2|]];
    destruct (nestedMapLookup _ _) as [| | | ref | |]; simpl; try done;
    try destruct (FindGitRef _) as [ref' [e3|]]; simpl;
    try (rewrite withDefaultBranch_choice;
         destruct (withDefaultBranch _ _) as [event1|] eqn:Hbranch; simpl; try done);
    destruct (String.eqb (githubContext.EventName ghc) "pull_request");
    by intros [= <-].
Qed.

(** The repository [nektos/act]. *)
Lemma applyDefaults_repository_witness :
  ∃ ghc',
    applyDefaults (H := repoHost) emptyGithubContext sampleConfig
      (sampleContext "ci" "build" None None) = Some ghc'
    ∧ githubContext.Repository ghc' = "nektos/act"
    ∧ githubContext.RepositoryOwner ghc' = "nektos".
Proof.
  destruct (applyDefaults (H := repoHost) emptyGithubContext sampleConfig
              (sampleContext "ci" "build" None None)) as [ghc'|] eqn:Happly;
    [|by vm_compute in Happly].
  exists ghc'. split; [done|].
  by apply (applyDefaults_repository (H := repoHost) emptyGithubContext ghc'
              sampleConfig (sampleContext "ci" "build" None None) "nektos" "act").
Defined.

(** For a [pull_request] event the base and head refs that [applyDefaults]
    returns are the strings that the decoded event holds under
    [pull_request.base.ref] and [pull_request.head.ref], empty when there is
    no such string; for every other event they are left as they were. *)
Theorem applyDefaults_pull_request `{Host} (ghc ghc' : githubContext.t)
    (cfg : Config.t) (rc : RunContext.t) :
  applyDefaults ghc cfg rc = Some ghc' →
  if String.eqb (githubContext.EventName ghc) "pull_request" then
    githubContext.BaseRef ghc'
    = asString (nestedMapLookup (readMap (decodedEvent ghc rc))
                  ["pull_request"; "base"; "ref"])
    ∧ githubContext.HeadRef ghc'
      = asString (nestedMapLookup (readMap (decodedEvent ghc rc))
                    ["pull_request"; "head"; "ref"])
  else
    githubContext.BaseRef ghc' = githubContext.BaseRef ghc
    ∧ githubContext.HeadRef ghc' = githubContext.HeadRef ghc.
Proof.
  unfold applyDefaults. fold (decodedEvent ghc rc).
  destruct (FindGithubRepo _ _) as [repo [e1|]];
    destruct (FindGitRevision _) as [[short sha] [e2|]];
    destruct (nestedMapLookup _ _) as [| | | ref | |]; simpl; try done;
    try destruct (FindGitRef _) as [ref' [e3|]]; simpl;
    try (rewrite withDefaultBranch_choice;
         destruct (withDefaultBranch _ _) as [event1|] eqn:Hbranch; simpl; try done);
    destruct (String.eqb (githubContext.EventName ghc) "pull_request");
    intros [= <-]; simpl;
    rewrite ?(withDefaultBranch_frame _ _ _ "pull_request" Hbranch) by done; done.
Qed.

(** A [pull_request] event from [feature] to [main]. *)
Lemma applyDefaults_pull_request_witness :
  ∃ ghc',
    applyDefaults (H := repoHost) pullRequestContext sampleConfig
      (sampleContext "ci" "build" None None) = Some ghc'
    ∧ githubContext.BaseRef ghc' = "main"
    ∧ githubContext.HeadRef ghc' = "feature".
Proof.
  destruct (applyDefaults (H := repoHost) pullRequestContext sampleConfig
              (sampleContext "ci" "build" None None)) as [ghc'|] eqn:Happly;
    [|by vm_compute in Happly].
  exists ghc'. split; [done|].
  exact (applyDefaults_pull_request (H := repoHost) pullRequestContext ghc'
           sampleConfig (sampleContext "ci" "build" None None) Happly).
Defined.
